(** * Findlee: the product aggregation and ranking pipeline

    A shallow embedding of [backend/services/product_ranker.js],
    [backend/services/aggregator.js] and [backend/services/aiAdvisor.js],
    and the properties the specification states about them.

    Modelling conventions.
    - A JavaScript number is a value of [JS.number]: an exact rational, one
      of the two infinities, or NaN.  Arithmetic on finite values is exact
      (IEEE rounding and the sign of zero are not modelled); the special
      values follow IEEE 754, so that [0/0], [Infinity - Infinity] and
      comparisons with NaN behave as they do in JavaScript.
    - A string is a [string] of bytes; [toLowerCase] and [trim] act on the
      ASCII range.
    - A thrown exception is the [Throw] case of [result]; [try]/[catch] is
      [try_catch].  An [await] is sequential composition.
    - What the outside world answers (the scrapers, the search API, the two
      Gemini calls, the clock, the process environment) is an explicit
      argument of the function that consults it.
    - Arrays are lists and objects are records, passed by value: the ranker
      builds new arrays and objects ([map], spread) and never writes to the
      ones it is given, and the orchestrator's in-place [sort], [splice] and
      [push] act on its own [items] only, whose successive contents are
      threaded through.  That nothing is lost this way is proved, not
      assumed: [Imperative] has the same functions with arrays as objects
      of a heap, and [getProductResults_run] relates the two.
    - Rounding and text outside ASCII are where this model and the code
      part.  [Binary64] computes value scores as the code does, for
      comparison, and [Str.is_ascii] marks the strings on which the string
      functions are the code's; a lemma that rests on exact arithmetic
      says so. *)

From Stdlib Require Import QArith Qcanon Lqa Ascii String.
From Stdlib Require PrimFloat.
From stdpp Require Import base numbers list strings gmap sorting pretty.

Local Open Scope Z_scope.

(** ** JavaScript numbers *)

Module JS.

Inductive number : Type :=
  | Num (q : Qc)
  | Infinity
  | NegInfinity
  | NaN.

Definition of_Z (z : Z) : number := Num (Q2Qc (inject_Z z)).
(** The decimal literal [n/d], e.g. [dec 115 100] for [1.15]. *)
Definition dec (n : Z) (d : positive) : number := Num (Q2Qc (n # d)).

Definition zero : Qc := Q2Qc 0.

Definition neg (a : number) : number :=
  match a with
  | Num x => Num (- x)%Qc
  | Infinity => NegInfinity
  | NegInfinity => Infinity
  | NaN => NaN
  end.

Definition add (a b : number) : number :=
  match a, b with
  | NaN, _ | _, NaN => NaN
  | Num x, Num y => Num (x + y)%Qc
  | Infinity, NegInfinity | NegInfinity, Infinity => NaN
  | Infinity, _ | _, Infinity => Infinity
  | NegInfinity, _ | _, NegInfinity => NegInfinity
  end.

Definition sub (a b : number) : number := add a (neg b).

(** [signed c pos]: the value [pos] with the sign of a finite factor whose
    comparison with zero is [c]; a zero factor against an infinity is NaN. *)
Definition signed (c : comparison) (pos : number) : number :=
  match c with
  | Eq => NaN
  | Gt => pos
  | Lt => neg pos
  end.

Definition mul (a b : number) : number :=
  match a, b with
  | NaN, _ | _, NaN => NaN
  | Num x, Num y => Num (x * y)%Qc
  | Num x, Infinity | Infinity, Num x => signed (x ?= zero)%Qc Infinity
  | Num x, NegInfinity | NegInfinity, Num x => signed (x ?= zero)%Qc NegInfinity
  | Infinity, Infinity | NegInfinity, NegInfinity => Infinity
  | Infinity, NegInfinity | NegInfinity, Infinity => NegInfinity
  end.

Definition div (a b : number) : number :=
  match a, b with
  | NaN, _ | _, NaN => NaN
  | Num x, Num y =>
      match (y ?= zero)%Qc with
      | Eq => signed (x ?= zero)%Qc Infinity
      | _ => Num (x / y)%Qc
      end
  | Num _, (Infinity | NegInfinity) => Num zero
  | Infinity, Num y =>
      match (y ?= zero)%Qc with Lt => NegInfinity | _ => Infinity end
  | NegInfinity, Num y =>
      match (y ?= zero)%Qc with Lt => Infinity | _ => NegInfinity end
  | (Infinity | NegInfinity), (Infinity | NegInfinity) => NaN
  end.

(** [a < b]; false as soon as one side is NaN. *)
Definition lt (a b : number) : bool :=
  match a, b with
  | NaN, _ | _, NaN => false
  | Num x, Num y => match (x ?= y)%Qc with Lt => true | _ => false end
  | _, NegInfinity => false
  | NegInfinity, _ => true
  | Infinity, _ => false
  | _, Infinity => true
  end.

Definition gt (a b : number) : bool := lt b a.

Definition is_nan (a : number) : bool :=
  match a with NaN => true | _ => false end.

(** [Number.isFinite(a)] *)
Definition is_finite (a : number) : bool :=
    match a with Num _ => true | _ => false end.

(** [a <= b] and [a >= b]; false as soon as one side is NaN. *)
Definition le (a b : number) : bool :=
  negb (is_nan a) && negb (is_nan b) && negb (lt b a).
Definition ge (a b : number) : bool := le b a.

(** [Math.max(a, b)] and [Math.min(a, b)]: NaN if either argument is. *)
Definition max (a b : number) : number :=
  match a, b with
  | NaN, _ | _, NaN => NaN
  | _, _ => if lt a b then b else a
  end.

Definition min (a b : number) : number :=
  match a, b with
  | NaN, _ | _, NaN => NaN
  | _, _ => if lt b a then b else a
  end.

(** Truthiness of a number: everything but [0] and NaN. *)
Definition truthy (a : number) : bool :=
  match a with
  | NaN => false
  | Num x => match (x ?= zero)%Qc with Eq => false | _ => true end
  | _ => true
  end.

(** [a || b] on numbers. *)
Definition or (a b : number) : number := if truthy a then a else b.

(** [a ?? b] where [a] may be [undefined] or [null]. *)
Definition nullish {A} (a : option A) (b : A) : A :=
  match a with Some v => v | None => b end.

End JS.

Declare Scope js_scope.
Delimit Scope js_scope with js.
Bind Scope js_scope with JS.number.
Infix "+" := JS.add : js_scope.
Infix "-" := JS.sub : js_scope.
Infix "*" := JS.mul : js_scope.
Infix "/" := JS.div : js_scope.
Infix "<?" := JS.lt : js_scope.
Infix ">?" := JS.gt : js_scope.
Infix "<=?" := JS.le : js_scope.
Infix ">=?" := JS.ge : js_scope.

(** ** Strings *)

Module Str.

(** [c.toLowerCase()] on one ASCII character. *)
Definition lower_char (c : ascii) : ascii :=
  let n := nat_of_ascii c in
  if ((65 <=? n)%nat && (n <=? 90)%nat)%bool then ascii_of_nat (n + 32) else c.

Fixpoint toLowerCase (s : string) : string :=
  match s with
  | EmptyString => EmptyString
  | String c s' => String (lower_char c) (toLowerCase s')
  end.

(** [s.includes(needle)]. *)
Fixpoint includes (s needle : string) : bool :=
  String.prefix needle s ||
  match s with
  | EmptyString => false
  | String _ s' => includes s' needle
  end.

(** [s.slice(0, n)]. *)
Fixpoint slice0 (n : nat) (s : string) : string :=
  match n, s with
  | S n', String c s' => String c (slice0 n' s')
  | _, _ => EmptyString
  end.

Fixpoint trimStart (s : string) : string :=
  match s with
  | String c s' => if Ascii.is_space c then trimStart s' else s
  | EmptyString => EmptyString
  end.

Definition trimEnd (s : string) : string := String.rev (trimStart (String.rev s)).

(** [s.trim()]. *)
Definition trim (s : string) : string := trimEnd (trimStart s).

(** Truthiness of a string: everything but the empty string. *)
Definition truthy (s : string) : bool := negb (String.eqb s "").

(** Every character of [s] is in the ASCII range.  On such a string a byte
    is a UTF-16 code unit, and [toLowerCase], [slice0] and [trim] above are
    the code's [toLowerCase], [slice(0, n)] and [trim]; outside ASCII the
    code maps case and counts length by code unit, which a string of bytes
    does not follow. *)
Fixpoint is_ascii (s : string) : bool :=
  match s with
  | EmptyString => true
  | String c s' => (nat_of_ascii c <? 128)%nat && is_ascii s'
  end.

End Str.

(** ** Exceptions *)

Inductive result (A : Type) : Type :=
  | Ok (a : A)
  | Throw (message : string).
Arguments Ok {A} a.
Arguments Throw {A} message.

#[global] Instance result_ret : MRet result := @Ok.
#[global] Instance result_bind : MBind result := λ A B f m,
  match m with
  | Ok a => f a
  | Throw e => Throw e
  end.

(** [try { body } catch (e) { handler e }]. *)
Definition try_catch {A} (body : result A) (handler : string → result A) : result A :=
  match body with
  | Ok a => Ok a
  | Throw e => handler e
  end.

(** [l.map(f)] for a callback that may throw: stops at the first throw. *)
Fixpoint map_throwing {A B} (f : nat → A → result B) (index : nat) (l : list A)
  : result (list B) :=
  match l with
  | [] => Ok []
  | x :: l' =>
      y ← f index x;
      ys ← map_throwing f (S index) l';
      mret (y :: ys)
  end.

(** ** [Array.prototype.sort]

    The sort is stable, and [compareFn a b > 0] puts [a] after [b]; a NaN
    from the comparator counts as [0].  For a consistent comparator the
    result is determined by these two facts, and insertion from the right
    computes it. *)

Section Sort.
Context {A : Type} (compareFn : A → A → JS.number).

Definition after (a b : A) : bool := JS.gt (compareFn a b) (JS.of_Z 0).

(** [a] may stand before [b]. *)
Definition before (a b : A) : Prop := after a b = false.

Fixpoint insert (x : A) (l : list A) : list A :=
  match l with
  | [] => [x]
  | y :: l' => if after x y then y :: insert x l' else x :: l
  end.

Fixpoint sort (l : list A) : list A :=
  match l with
  | [] => []
  | x :: l' => insert x (sort l')
  end.
End Sort.

(** ** Products *)

(** The four fields [rankProducts] attaches to a ranked product. *)
Record Scores : Type := {
  CRS : JS.number;
  R_Score : JS.number;
  P_Score : JS.number;
  Irrelevance_Penalty : JS.number
}.

(** A product listing.  [prod_id] is the [id] field, which a source may
    omit; [rating], [reviews] and [discount] are [0] when the source gives
    none; [scores] is present once the product went through the ranking. *)
Record Product : Type := {
  prod_id : option string;
  title : string;
  price : JS.number;
  store : string;
  link : string;
  rating : JS.number;
  reviews : JS.number;
  discount : JS.number;
  scores : option Scores
}.

(** [{ ...p, CRS, R_Score, P_Score, Irrelevance_Penalty }]. *)
Definition with_scores (p : Product) (s : Scores) : Product :=
  {| prod_id := prod_id p; title := title p; price := price p;
     store := store p; link := link p; rating := rating p;
     reviews := reviews p; discount := discount p; scores := Some s |}.

(** [p.CRS], which is [undefined] (NaN in arithmetic) on an unranked product. *)
Definition CRS_of (p : Product) : JS.number :=
  match scores p with
  | Some s => CRS s
  | None => JS.NaN
  end.

(** The process environment. *)
Record Config : Type := {
  GEMINI_API_KEY : option string;
  SERPAPI_KEY : option string;
  USE_SERPAPI : bool;
  USE_AMAZON_FLIPKART_DIRECT : bool
}.

(** [!key || key === 'your_gemini_api_key_here'] *)
Definition gemini_unconfigured (cfg : Config) : bool :=
  let apiKey := default "" (GEMINI_API_KEY cfg) in
  negb (Str.truthy apiKey) || String.eqb apiKey "your_gemini_api_key_here".

(** ** product_ranker.js *)

(** Ranking weights. *)
Definition W_R : JS.number := JS.of_Z 3.
Definition W_P : JS.number := JS.of_Z 1.
Definition W_IR : JS.number := JS.of_Z 5.

(** [String(p.id || index)]: an absent or empty id falls back to the index. *)
Definition candidate_id (p : Product) (index : nat) : string :=
  match prod_id p with
  | Some s => if Str.truthy s then s else pretty index
  | None => pretty index
  end.

(** The accessory test of Stage 1, on a lower-cased title. *)
Definition is_accessory (titleLower : string) : bool :=
  Str.includes titleLower "case" ||
  Str.includes titleLower "cable" ||
  Str.includes titleLower "protector" ||
  Str.includes titleLower "charger" ||
  Str.includes titleLower "adapter" ||
  Str.includes titleLower "cover" ||
  Str.includes titleLower "stand".

(** [price > 10000 ? price * 1.15 : price * 2] *)
Definition reference_price (price : JS.number) : JS.number :=
  if (price >? JS.of_Z 10000)%js
  then (price * JS.dec 115 100)%js
  else (price * JS.of_Z 2)%js.

(** [Math.max(0, Math.min(1, 1 - (price / reference_price)))] *)
Definition p_score (price : JS.number) : JS.number :=
  JS.max (JS.of_Z 0)
    (JS.min (JS.of_Z 1) (JS.of_Z 1 - price / reference_price price)%js).

(** The same two expressions on binary64 numbers, the numbers the code
    computes with: every operation rounds to the nearest double.  Here a
    value can be computed, not reasoned about for every price; the module
    serves to tell where the exact arithmetic of [JS.number] and the
    arithmetic of the code part (see [Binary64_value_scores] below). *)
Module Binary64.
Import PrimFloat.
Local Open Scope float_scope.

Definition is_nan (a : float) : bool := negb (a =? a).

(** [Math.max(a, b)] and [Math.min(a, b)]: NaN if either argument is, and
    [-0] counts as smaller than [+0]. *)
Definition max (a b : float) : float :=
  if is_nan a || is_nan b then nan
  else if a <? b then b
  else if b <? a then a
  else if a =? 0 then a + b else a.

Definition min (a b : float) : float :=
  if is_nan a || is_nan b then nan
  else if b <? a then b
  else if a <? b then a
  else if a =? 0 then - (- a + - b) else a.

(** [price > 10000 ? price * 1.15 : price * 2]; the literal [1.15] is the
    double nearest to it. *)
Definition reference_price (price : float) : float :=
  if 10000 <? price then price * 0x1.2666666666666p+0 else price * 2.

(** [Math.max(0, Math.min(1, 1 - (price / reference_price)))] *)
Definition p_score (price : float) : float :=
  max 0 (min 1 (1 - price / reference_price price)).

End Binary64.

(** An element of the Stage 1 array [productsForAI]. *)
Module ForAI.
Record t : Type := {
  id : string;
  title : string;
  store : string;
  price : JS.number;
  is_accessory : bool;
  p_score : JS.number
}.
End ForAI.

(** The callback of Stage 1. *)
Definition stage1 (index : nat) (p : Product) : ForAI.t :=
  let id := candidate_id p index in
  let price_or_0 := JS.or (price p) (JS.of_Z 0) in
  let titleLower := if Str.truthy (title p) then Str.toLowerCase (title p) else "" in
  {| ForAI.id := id;
     ForAI.title := title p;
     ForAI.store := store p;
     ForAI.price := price p;
     ForAI.is_accessory := is_accessory titleLower;
     ForAI.p_score := p_score price_or_0 |}.

(** One element of the array the provider answers with, at the response
    schema: [s_id] is [String(s.id)], a score is [None] when the field is
    absent or [null]. *)
Record AiScore : Type := {
  s_id : string;
  s_R_Score : option JS.number;
  s_Irrelevance_Penalty : option JS.number
}.

(** What [JSON.parse(jsonText)] yields, as far as the code looks at it: an
    array of elements, each an object or [null], or something else. *)
Inductive Payload : Type :=
  | NotAnArray
  | ScoreArray (aiScores : list (option AiScore)).

(** What the scoring provider does with the request.  [Body jsonText parsed]
    is a readable JSON body whose
    [candidates?.[0]?.content?.parts?.[0]?.text] is [jsonText] ([None] when
    the chain ends in [undefined]) and on which [JSON.parse] gives [parsed]
    (a [Throw] for a syntax error). *)
Inductive ScoringResponse : Type :=
  | FetchRejected (reason : string)
  | HttpError (status : Z) (errorDetail : string)
  | BodyUnreadable (reason : string)
  | Body (jsonText : option string) (parsed : result Payload).

(** From [fetch] to the check of [jsonText]. *)
Definition read_jsonText (response : ScoringResponse) : result (result Payload) :=
  match response with
  | FetchRejected reason => Throw reason
  | HttpError status errorDetail =>
      Throw ("Gemini API returned " +:+ pretty status +:+ ": " +:+ errorDetail)
  | BodyUnreadable reason => Throw reason
  | Body jsonText parsed =>
      match jsonText with
      | Some text =>
          if Str.truthy text then Ok parsed
          else Throw "No structured data returned from Gemini"
      | None => Throw "No structured data returned from Gemini"
      end
  end.

(** The inner [try]: [JSON.parse] and the [Array.isArray] check. *)
Definition parse_aiScores (parsed : result Payload) : result (list (option AiScore)) :=
  try_catch
    (payload ← parsed;
     match payload with
     | ScoreArray aiScores => mret aiScores
     | NotAnArray => Throw "Parsed AI scores are not an array"
     end)
    (λ e, Throw ("Failed to parse AI JSON response: " +:+ e)).

(** [aiScores.find(s => String(s.id) === id)]; reading [.id] of a [null]
    element throws. *)
Fixpoint find_score (id : string) (aiScores : list (option AiScore))
  : result (option AiScore) :=
  match aiScores with
  | [] => Ok None
  | None :: _ => Throw "TypeError: Cannot read properties of null (reading 'id')"
  | Some s :: rest => if String.eqb (s_id s) id then Ok (Some s) else find_score id rest
  end.

(** The composite score before the clamp. *)
Definition composite (R_Score P_Score Irrelevance_Penalty : JS.number) : JS.number :=
  (W_R * R_Score + W_P * P_Score - W_IR * Irrelevance_Penalty)%js.

(** The callback of Stage 3. *)
Definition stage3 (productsForAI : list ForAI.t) (aiScores : list (option AiScore))
    (index : nat) (p : Product) : result Product :=
  let id := candidate_id p index in
  let productData := List.find (λ item, String.eqb (ForAI.id item) id) productsForAI in
  aiData ← find_score id aiScores;
  let r_score := JS.nullish (aiData ≫= s_R_Score) (JS.dec 1 2) in
  let irrelevance_penalty := JS.nullish (aiData ≫= s_Irrelevance_Penalty) (JS.of_Z 0) in
  let p_score := JS.nullish (ForAI.p_score <$> productData) (JS.of_Z 0) in
  let crs := composite r_score p_score irrelevance_penalty in
  mret (with_scores p
          {| CRS := JS.max (JS.of_Z 0) crs;
             R_Score := r_score;
             P_Score := p_score;
             Irrelevance_Penalty := irrelevance_penalty |}).

Record RankResult : Type := {
  rankedProducts : list Product;
  crsFailed : bool
}.

(** [(a, b) => b.CRS - a.CRS] *)
Definition by_CRS_desc (a b : Product) : JS.number := (CRS_of b - CRS_of a)%js.

(** [rankProducts(query, productCandidates)], given the environment and what
    the provider answers. *)
Definition rankProducts (cfg : Config) (response : ScoringResponse)
    (query : string) (productCandidates : list Product) : result RankResult :=
  if gemini_unconfigured cfg || (length productCandidates =? 0)%nat then
    mret {| rankedProducts := productCandidates; crsFailed := true |}
  else
    try_catch
      (let productsForAI := imap stage1 productCandidates in
       parsed ← read_jsonText response;
       aiScores ← parse_aiScores parsed;
       ranked ← map_throwing (stage3 productsForAI aiScores) 0 productCandidates;
       mret {| rankedProducts := sort by_CRS_desc ranked; crsFailed := false |})
      (λ error, mret {| rankedProducts := productCandidates; crsFailed := true |}).

(** ** aiAdvisor.js and aggregator.js

    [Number_toString n] is [String(n)] and [toLocaleString n] is
    [n.toLocaleString()], two built-ins whose output format plays no role
    below. *)

Section Pipeline.
Variable Number_toString : JS.number → string.
Variable toLocaleString : JS.number → string.

(** *** aiAdvisor.js *)

(** [products.reduce((max, p) => p.price > max.price ? p : max, products[0])] *)
Definition mostExpensive (products : list Product) (first : Product) : Product :=
  fold_left (λ max p, if (price p >? price max)%js then p else max) products first.

(** [generateFallbackSummary(products, note)] *)
Definition generateFallbackSummary (products : list Product) (note : string) : string :=
  match products with
  | [] => "No products available to analyze."
  | best :: _ =>
      let hasDiscount := (discount best >? JS.of_Z 0)%js in
      let hasRating := (rating best >? JS.of_Z 0)%js in
      let hasReviews := (reviews best >? JS.of_Z 0)%js in
      let otherProductsCount := (length products - 1)%nat in
      let summary :=
        "Our top recommendation is the **" +:+ title best +:+ "** from " +:+
        store best +:+ " for ₹" +:+ toLocaleString (price best) +:+ "." in
      let summary :=
        if hasDiscount then
          summary +:+ " This fantastic deal includes a huge **" +:+
          Number_toString (discount best) +:+
          "% off** the original price, making it an excellent value choice."
        else
          summary +:+
          " It stands out as the best choice based on its competitive price and overall value." in
      let summary :=
        if hasRating then
          let summary :=
            summary +:+ " Customers love this product, giving it a high rating of **⭐ " +:+
            Number_toString (rating best) +:+ "/5**." in
          if hasReviews then
            summary +:+ " With " +:+ toLocaleString (reviews best) +:+
            " verified reviews, you can shop with confidence."
          else summary
        else if hasReviews then
          summary +:+ " This product has been widely purchased and reviewed by " +:+
          toLocaleString (reviews best) +:+ " customers."
        else summary in
      let summary :=
        if (1 <? length products)%nat then
          let savings := (price (mostExpensive products best) - price best)%js in
          if (savings >? JS.of_Z 0)%js && (0 <? otherProductsCount)%nat then
            summary +:+ " Considering the " +:+ pretty otherProductsCount +:+
            " other option" +:+ (if (1 <? otherProductsCount)%nat then "s" else "") +:+
            " we found, choosing this deal allows you to **save up to ₹" +:+
            toLocaleString savings +:+ "!**"
          else summary
        else summary in
      if Str.truthy note then summary +:+ " " +:+ note else summary
  end.

(** [data.candidates[0]], once it is known to exist and to have a
    [content]: [text] is [content.parts[0].text], [None] when [parts] is
    missing or empty or its first element has no text. *)
Record VerdictCandidate : Type := {
  finishReason : option string;
  text : option string
}.

(** What the text-generation provider does with the request;
    [VBody None] is a readable body without [candidates[0].content]. *)
Inductive VerdictResponse : Type :=
  | VFetchRejected (reason : string)
  | VHttpError (status : Z) (errorText : string)
  | VBodyUnreadable (reason : string)
  | VBody (candidate : option VerdictCandidate).

Definition blocked_or_cut (reason : option string) : bool :=
  match reason with
  | Some r => String.eqb r "SAFETY" || String.eqb r "RECITATION" || String.eqb r "MAX_TOKENS"
  | None => false
  end.

(** [aiVerdict(products, crsFailureMessage)]; the prompt sent to the
    provider is not part of the result and is left out. *)
Definition aiVerdict (cfg : Config) (response : VerdictResponse)
    (products : list Product) (crsFailureMessage : string) : string :=
  if gemini_unconfigured cfg then generateFallbackSummary products crsFailureMessage
  else
    let body : result string :=
      match response with
      | VFetchRejected reason => Throw reason
      | VHttpError status errorText =>
          Throw ("Gemini API returned " +:+ pretty status +:+ ": " +:+ errorText)
      | VBodyUnreadable reason => Throw reason
      | VBody None => Throw "Invalid response structure from Gemini API"
      | VBody (Some candidate) =>
          if blocked_or_cut (finishReason candidate) then
            Ok (generateFallbackSummary products crsFailureMessage)
          else
            match text candidate with
            | Some t =>
                if Str.truthy t then
                  let verdict := Str.trim t in
                  if Str.truthy verdict then Ok verdict
                  else Ok (generateFallbackSummary products crsFailureMessage)
                else Throw "No text content in Gemini response"
            | None => Throw "No text content in Gemini response"
            end
      end in
    match body with
    | Ok verdict => verdict
    | Throw _ => generateFallbackSummary products crsFailureMessage
    end.

(** *** aggregator.js *)

(** The key of [deduplicateProducts]:
    [`${p.title.toLowerCase().slice(0, 50).trim()}_${p.price}`] *)
Definition dedup_key (p : Product) : string :=
  Str.trim (Str.slice0 50 (Str.toLowerCase (title p))) +:+ "_" +:+
  Number_toString (price p).

(** The [filter] of [deduplicateProducts], with [seen] threaded through. *)
Fixpoint dedup_from (seen : gset string) (products : list Product) : list Product :=
  match products with
  | [] => []
  | p :: rest =>
      let key := dedup_key p in
      if decide (key ∈ seen) then dedup_from seen rest
      else p :: dedup_from ({[key]} ∪ seen) rest
  end.

Definition deduplicateProducts (products : list Product) : list Product :=
  dedup_from ∅ products.

(** The keyword test of [simpleAccessoryFilter], on a lower-cased string. *)
Definition names_accessory (lower : string) : bool :=
  Str.includes lower "case" ||
  Str.includes lower "cover" ||
  Str.includes lower "protector" ||
  Str.includes lower "charger" ||
  Str.includes lower "cable" ||
  Str.includes lower "stand".

Definition isPrimaryQuery (query : string) : bool :=
  let queryLower := Str.toLowerCase query in
  negb (Str.includes queryLower "case") &&
  negb (Str.includes queryLower "cover") &&
  negb (Str.includes queryLower "charger") &&
  negb (Str.includes queryLower "cable") &&
  negb (Str.includes queryLower "protector") &&
  negb (Str.includes queryLower "stand").

(** The callback of the [filter] in [simpleAccessoryFilter]. *)
Definition keeps (p : Product) : bool :=
  let titleLower := Str.toLowerCase (title p) in
  let isAccessory := names_accessory titleLower in
  if isAccessory && (price p <? JS.of_Z 1000)%js then false else true.

Definition simpleAccessoryFilter (query : string) (products : list Product)
  : list Product :=
  if negb (isPrimaryQuery query) then products
  else List.filter keeps products.

(** An entry of [metadata.sources]. *)
Record SourceReport : Type := {
  src_name : string;
  src_count : nat;
  src_type : option string;
  src_directLinks : option nat;
  src_redirectLinks : option nat;
  src_error : option string
}.

Definition source (name : string) (count : nat) (type : string) : SourceReport :=
  {| src_name := name; src_count := count; src_type := Some type;
     src_directLinks := None; src_redirectLinks := None; src_error := None |}.

(** What each source settles to for a query, the race against the timeout
    included: [Throw] is a rejection or a timeout. *)
Record Adapters : Type := {
  scrapeAmazon : string → result (list Product);
  scrapeFlipkart : string → result (list Product);
  searchGoogleShopping : string → result (list Product)
}.

(** The two readings of [Date.now()] that reach the result. *)
Record Clock : Type := {
  startTime : Z;
  endTime : Z
}.

Record Strategy : Type := {
  amazonFlipkartDirect : bool;
  serpApiOthers : bool
}.

Record Metadata : Type := {
  totalResults : nat;
  topPrice : option JS.number;
  topStore : option string;
  rankedByAI : bool;
  fetchTime : Z;
  directLinks : nat;
  redirectLinks : nat;
  sources : list SourceReport;
  strategy : option Strategy
}.

Record AggregationResult : Type := {
  items : list Product;
  summary : string;
  metadata : Metadata
}.

(** [getSetupMessage()] *)
Definition getSetupMessage (cfg : Config) : string :=
  if negb (USE_SERPAPI cfg) && negb (USE_AMAZON_FLIPKART_DIRECT cfg) then
    "⚠️ No data sources enabled. Enable USE_SERPAPI and/or USE_AMAZON_FLIPKART_DIRECT in .env"
  else
    let apiKey := default "" (SERPAPI_KEY cfg) in
    if USE_SERPAPI cfg &&
       (negb (Str.truthy apiKey) || String.eqb apiKey "your_serpapi_key_here") then
      "🔑 Please add SERPAPI_KEY to .env file. Get free key at: https://serpapi.com/users/sign_up"
    else
      "😔 No products found. Try a different search term.".

(** One round of the [results.forEach] of STEP 1. *)
Definition collect_direct (name : string) (settled : result (list Product))
    (acc : list Product * list SourceReport) : list Product * list SourceReport :=
  let '(items, sources) := acc in
  let data := match settled with Ok value => value | Throw _ => [] end in
  if (0 <? length data)%nat
  then (items ++ data, sources ++ [source name (length data) "direct"])
  else (items, sources ++ [source name 0%nat "failed"]).

Definition is_direct_link (p : Product) : bool :=
  negb (Str.includes (link p) "google.com").

(** The store test of STEP 2: the store names neither Amazon nor Flipkart. *)
Definition other_store (p : Product) : bool :=
  let store := Str.toLowerCase (store p) in
  negb (existsb (λ ds, Str.includes store ds) ["amazon"; "flipkart"]).

(** STEP 2. *)
Definition collect_serpapi (cfg : Config) (settled : result (list Product))
    (acc : list Product * list SourceReport) : list Product * list SourceReport :=
  let '(items, sources) := acc in
  match settled with
  | Ok serpResults =>
      let filteredResults :=
        if USE_AMAZON_FLIPKART_DIRECT cfg
        then List.filter other_store serpResults
        else serpResults in
      let directLinks := length (List.filter is_direct_link filteredResults) in
      let redirectLinks := (length filteredResults - directLinks)%nat in
      (items ++ filteredResults,
       sources ++ [{| src_name := "SerpAPI (Other Stores)";
                      src_count := length filteredResults;
                      src_type := Some "serpapi";
                      src_directLinks := Some directLinks;
                      src_redirectLinks := Some redirectLinks;
                      src_error := None |}])
  | Throw message =>
      (items,
       sources ++ [{| src_name := "SerpAPI"; src_count := 0%nat; src_type := None;
                      src_directLinks := None; src_redirectLinks := None;
                      src_error := Some message |}])
  end.

(** [item.price > 0 && item.title && item.link] *)
Definition valid (item : Product) : bool :=
  (price item >? JS.of_Z 0)%js && Str.truthy (title item) && Str.truthy (link item).

(** Everything up to and including the deduplication: the merged list and
    the source reports. *)
Definition merge (cfg : Config) (adapters : Adapters) (query : string)
  : list Product * list SourceReport :=
  let acc := ([], []) in
  let acc :=
    if USE_AMAZON_FLIPKART_DIRECT cfg then
      collect_direct "Flipkart" (scrapeFlipkart adapters query)
        (collect_direct "Amazon" (scrapeAmazon adapters query) acc)
    else acc in
  let acc :=
    if USE_SERPAPI cfg
    then collect_serpapi cfg (searchGoogleShopping adapters query) acc
    else acc in
  let '(items, sources) := acc in
  (deduplicateProducts (List.filter valid items), sources).

(** [(a, b) => (a.price || Infinity) - (b.price || Infinity)] *)
Definition by_price (a b : Product) : JS.number :=
  (JS.or (price a) JS.Infinity - JS.or (price b) JS.Infinity)%js.

(** The variables the ranking block of [getProductResults] assigns. *)
Record Ranking : Type := {
  r_items : list Product;
  r_summary : string;
  r_rankedProducts : list Product;
  r_rankingFailed : bool
}.

(** The two [splice]s, the sort of the tail and the [push] that put the
    ranked products in front of [items]. *)
Definition apply_ranking (items rankedProducts : list Product) (n : nat)
  : list Product :=
  let items := rankedProducts ++ drop n items in
  let remainingItems := drop n items in
  let items := take n items in
  items ++ sort by_price remainingItems.

(** The [try] block of [getProductResults] with its [catch]. *)
Definition rank_and_summarise (cfg : Config) (scoring : ScoringResponse)
    (verdict : VerdictResponse) (query : string)
    (items productsForAI : list Product) (first : Product) : Ranking :=
  let attempt : result Ranking :=
    rankResult ← rankProducts cfg scoring query productsForAI;
    let rankedProducts := rankedProducts rankResult in
    let rankingFailed := crsFailed rankResult in
    let productsForVerdict :=
      if (0 <? length rankedProducts)%nat && negb rankingFailed
      then take 5 rankedProducts
      else take 5 productsForAI in
    let rankNote :=
      if rankingFailed
      then " (Note: AI ranking temporarily unavailable, results filtered and sorted by price.)"
      else "" in
    let summary := aiVerdict cfg verdict productsForVerdict rankNote in
    let items :=
      if (0 <? length rankedProducts)%nat && negb rankingFailed
      then apply_ranking items rankedProducts (length productsForAI)
      else items in
    mret {| r_items := items; r_summary := summary;
            r_rankedProducts := rankedProducts; r_rankingFailed := rankingFailed |} in
  match attempt with
  | Ok ranking => ranking
  | Throw _ =>
      {| r_items := items;
         r_summary :=
           "Found " +:+ pretty (length items) +:+ " products! Best deal: ₹" +:+
           Number_toString (price first) +:+ " from " +:+ store first +:+ ". " +:+
           (if (discount first >? JS.of_Z 0)%js
            then "(" +:+ Number_toString (discount first) +:+ "% off!)" else "");
         r_rankedProducts := [];
         r_rankingFailed := true |}
  end.

(** The accessory filter of the fallback, the re-sort and the new summary. *)
Definition fallback (query : string) (r : Ranking) : Ranking :=
  if r_rankingFailed r then
    let beforeFilter := length (r_items r) in
    let items := simpleAccessoryFilter query (r_items r) in
    if (length items <? beforeFilter)%nat then
      let items := sort by_price items in
      let summary :=
        match items with
        | newTopProduct :: _ =>
            "Found " +:+ pretty (length items) +:+ " products! Best deal: ₹" +:+
            Number_toString (price newTopProduct) +:+ " from " +:+
            store newTopProduct +:+
            ". (Note: AI ranking unavailable. Cheap accessories filtered out.)"
        | [] => r_summary r
        end in
      {| r_items := items; r_summary := summary;
         r_rankedProducts := r_rankedProducts r; r_rankingFailed := true |}
    else
      {| r_items := items; r_summary := r_summary r;
         r_rankedProducts := r_rankedProducts r; r_rankingFailed := true |}
  else r.

(** [items.slice(0, Math.min(20, items.length))] of the price-sorted list. *)
Definition top_slice (sorted : list Product) : list Product :=
  take (Nat.min 20 (length sorted)) sorted.

(** [getProductResults(query)], from the merged list on.  The summary
    first built from [productsForAI[0]] is overwritten on every path, by
    the [try] block or by its [catch], so only the read of
    [productsForAI[0]] is kept: it throws on an empty slice. *)
Definition rank_merged (cfg : Config) (scoring : ScoringResponse)
    (verdict : VerdictResponse) (clock : Clock) (query : string)
    (merged : list Product) (sources : list SourceReport)
  : result AggregationResult :=
  let items := merged in
  let directLinks := length (List.filter is_direct_link items) in
  let redirectLinks := (length items - directLinks)%nat in
  if (length items =? 0)%nat then
    mret {| items := [];
            summary := getSetupMessage cfg;
            metadata :=
              {| totalResults := 0%nat; topPrice := None; topStore := None;
                 rankedByAI := false;
                 fetchTime := endTime clock - startTime clock;
                 directLinks := 0%nat; redirectLinks := 0%nat;
                 sources := sources; strategy := None |} |}
  else
    let items := sort by_price items in
    let productsForAI := top_slice items in
    match productsForAI with
    | [] => Throw "TypeError: Cannot read properties of undefined (reading 'price')"
    | first :: _ =>
        let r := fallback query
                   (rank_and_summarise cfg scoring verdict query items productsForAI first) in
        mret {| items := r_items r;
                summary := r_summary r;
                metadata :=
                  {| totalResults := length (r_items r);
                     topPrice := price <$> head (r_items r);
                     topStore := store <$> head (r_items r);
                     rankedByAI :=
                       negb (r_rankingFailed r) && (0 <? length (r_rankedProducts r))%nat;
                     fetchTime := endTime clock - startTime clock;
                     directLinks := directLinks;
                     redirectLinks := redirectLinks;
                     sources := sources;
                     strategy :=
                       Some {| amazonFlipkartDirect := USE_AMAZON_FLIPKART_DIRECT cfg;
                               serpApiOthers := USE_SERPAPI cfg |} |} |}
    end.

(** [getProductResults(query)] *)
Definition getProductResults (cfg : Config) (adapters : Adapters)
    (scoring : ScoringResponse) (verdict : VerdictResponse) (clock : Clock)
    (query : string) : result AggregationResult :=
  let '(merged, sources) := merge cfg adapters query in
  rank_merged cfg scoring verdict clock query merged sources.
End Pipeline.

(** ** The vocabulary of the properties *)

(** The provider outcomes that must surface as a failed scoring: no usable
    credential, an HTTP error, a response without text, a text that does
    not parse, a parsed payload that is not an array. *)
Inductive scoring_unavailable (cfg : Config) : ScoringResponse → Prop :=
  | unconfigured response :
      gemini_unconfigured cfg = true → scoring_unavailable cfg response
  | http_error status errorDetail :
      scoring_unavailable cfg (HttpError status errorDetail)
  | text_missing parsed :
      scoring_unavailable cfg (Body None parsed)
  | text_empty parsed :
      scoring_unavailable cfg (Body (Some "") parsed)
  | text_unparseable jsonText message :
      scoring_unavailable cfg (Body (Some jsonText) (Throw message))
  | payload_not_array jsonText :
      scoring_unavailable cfg (Body (Some jsonText) (Ok NotAnArray)).

(** The three scores stored on a ranked product are numbers. *)
Definition numeric_scores (s : Scores) : Prop :=
  JS.is_finite (R_Score s) = true ∧
  JS.is_finite (P_Score s) = true ∧
  JS.is_finite (Irrelevance_Penalty s) = true.

(** A price Stage 1 scores with a number: finite and not [0]. *)
Definition priced (p : Product) : Prop := ∃ x, price p = JS.Num x ∧ x ≠ JS.zero.

(** The scores the provider gives in one array element are finite. *)
Definition finite_scores (s : AiScore) : Prop :=
  (∀ r, s_R_Score s = Some r → JS.is_finite r = true) ∧
  (∀ q, s_Irrelevance_Penalty s = Some q → JS.is_finite q = true).

(** The scores the provider gives in one array element lie in [[0, 1]],
    the range the prompt asks for. *)
Definition unit_scores (s : AiScore) : Prop :=
  (∀ r, s_R_Score s = Some r →
     (JS.of_Z 0 <=? r)%js = true ∧ (r <=? JS.of_Z 1)%js = true) ∧
  (∀ q, s_Irrelevance_Penalty s = Some q →
     (JS.of_Z 0 <=? q)%js = true ∧ (q <=? JS.of_Z 1)%js = true).



(** ** Sample data *)

Module Sample.
Definition listing (name : string) (amount : JS.number) : Product :=
  {| prod_id := None; title := name; price := amount;
     store := "Amazon"; link := "https://www.amazon.in/dp/B0";
     rating := JS.of_Z 0; reviews := JS.of_Z 0; discount := JS.of_Z 0;
     scores := None |}.

Definition mouse_pad : Product := listing "mouse pad" (JS.of_Z 5).
Definition mouse : Product := listing "mouse" (JS.of_Z 25).
Definition mouse_cable : Product := listing "mouse cable" (JS.of_Z 5).
Definition phone : Product := listing "Phone X" (JS.of_Z 9000).
Definition unpriced_phone : Product := listing "Phone Y" (JS.of_Z 0).

Definition configured : Config :=
  {| GEMINI_API_KEY := Some "AIza-key"; SERPAPI_KEY := Some "serp-key";
     USE_SERPAPI := true; USE_AMAZON_FLIPKART_DIRECT := true |}.

(** A provider that answers with a well-formed, empty array of scores. *)
Definition healthy : ScoringResponse := Body (Some "[]") (Ok (ScoreArray [])).

(** A printer of numbers for the examples: numerator, slash, denominator. *)
Definition show (n : JS.number) : string :=
  match n with
  | JS.Num q => pretty (Qnum q) +:+ "/" +:+ pretty (Zpos (Qden q))
  | JS.Infinity => "Infinity"
  | JS.NegInfinity => "-Infinity"
  | JS.NaN => "NaN"
  end.

Definition adapters : Adapters :=
  {| scrapeAmazon := λ _, Ok [mouse_cable; mouse];
     scrapeFlipkart := λ _, Throw "Timeout";
     searchGoogleShopping := λ _, Ok [listing "Gaming Mouse" (JS.of_Z 15)] |}.

(** A listing as [rankProducts] returns it when the provider omits its id
    and its price is at most 10000: scores 0.5, 0.5 and 0, composite 2. *)
Definition neutral (p : Product) : Product :=
  with_scores p
    {| CRS := JS.dec 2 1; R_Score := JS.dec 1 2; P_Score := JS.dec 1 2;
       Irrelevance_Penalty := JS.of_Z 0 |}.

Definition no_verdict : VerdictResponse := VBody None.
Definition clock : Clock := {| startTime := 1000; endTime := 1850 |}.
End Sample.

(** ** The vocabulary of the further properties *)

(** The adapters with every rejection or timeout of a direct scraper
    replaced by an empty answer. *)
Definition without_direct_failures (a : Adapters) : Adapters :=
  {| scrapeAmazon := λ query,
       Ok (match scrapeAmazon a query with Ok value => value | Throw _ => [] end);
     scrapeFlipkart := λ query,
       Ok (match scrapeFlipkart a query with Ok value => value | Throw _ => [] end);
     searchGoogleShopping := searchGoogleShopping a |}.

(** The adapters with a rejection or timeout of the search API replaced by
    an empty answer. *)
Definition without_serpapi_failure (a : Adapters) : Adapters :=
  {| scrapeAmazon := scrapeAmazon a;
     scrapeFlipkart := scrapeFlipkart a;
     searchGoogleShopping := λ query,
       Ok (match searchGoogleShopping a query with Ok value => value | Throw _ => [] end) |}.

(** The outcomes of the text-generation call on which [aiVerdict] has no
    provider text to return. *)
Inductive verdict_unavailable (cfg : Config) : VerdictResponse → Prop :=
  | verdict_unconfigured response :
      gemini_unconfigured cfg = true → verdict_unavailable cfg response
  | verdict_fetch_rejected reason :
      verdict_unavailable cfg (VFetchRejected reason)
  | verdict_http_error status errorText :
      verdict_unavailable cfg (VHttpError status errorText)
  | verdict_body_unreadable reason :
      verdict_unavailable cfg (VBodyUnreadable reason)
  | verdict_no_candidate :
      verdict_unavailable cfg (VBody None)
  | verdict_blocked candidate :
      blocked_or_cut (finishReason candidate) = true →
      verdict_unavailable cfg (VBody (Some candidate))
  | verdict_no_text candidate :
      text candidate = None → verdict_unavailable cfg (VBody (Some candidate))
  | verdict_blank_text candidate t :
      text candidate = Some t → Str.trim t = "" →
      verdict_unavailable cfg (VBody (Some candidate)).

(** The candidate carries no usable [id]: the field is absent or empty. *)
Definition without_id (p : Product) : Prop :=
  prod_id p = None ∨ prod_id p = Some "".

(** The summary the fallback writes once the filter has removed something;
    [otherwise] is the summary it keeps when nothing is left to name. *)
Definition filtered_summary (Number_toString : JS.number → string)
    (items : list Product) (otherwise : string) : string :=
  match items with
  | newTopProduct :: _ =>
      "Found " +:+ pretty (length items) +:+ " products! Best deal: ₹" +:+
      Number_toString (price newTopProduct) +:+ " from " +:+ store newTopProduct +:+
      ". (Note: AI ranking unavailable. Cheap accessories filtered out.)"
  | [] => otherwise
  end.

(** The note [getProductResults] hands to [aiVerdict] when ranking failed. *)
Definition rankNote_failed : string :=
  " (Note: AI ranking temporarily unavailable, results filtered and sorted by price.)".

(** ** The cart (Convex functions)

    The table [carts] is the list of its documents in creation order.
    [withIndex("by_user", q => q.eq("userId", s)).first()] is the first
    document of user [s] in that order; [patch] rewrites the named fields
    of the document with the given [_id]; [insert] appends a document under
    an id no document has; [delete] removes the document with the given
    [_id].  The identity is the [subject] of [ctx.auth.getUserIdentity()],
    [None] when nobody is signed in; [now] is the reading of [Date.now()].
    A mutation that throws leaves the table as it was. *)

Module Cart.

Record Item : Type := {
  productId : string;
  name : string;
  price : JS.number;
  quantity : JS.number;
  image : option string
}.

Record Doc : Type := {
  _id : nat;
  userId : string;
  items : list Item;
  updatedAt : Z
}.

(** [.query("carts").withIndex("by_user", ...).first()] *)
Definition first_by_user (db : list Doc) (subject : string) : option Doc :=
  List.find (λ d, String.eqb (userId d) subject) db.

(** [ctx.db.patch(id, { items, updatedAt })] *)
Definition patch (db : list Doc) (id : nat) (newItems : list Item) (now : Z) : list Doc :=
  map (λ d, if (_id d =? id)%nat
            then {| _id := _id d; userId := userId d; items := newItems; updatedAt := now |}
            else d) db.

(** An id no document of the table has. *)
Definition fresh_id (db : list Doc) : nat := S (max_list (_id <$> db)).

(** [ctx.db.insert("carts", { userId, items, updatedAt })] *)
Definition insert (db : list Doc) (subject : string) (newItems : list Item) (now : Z)
  : list Doc :=
  db ++ [{| _id := fresh_id db; userId := subject; items := newItems; updatedAt := now |}].

(** [ctx.db.delete(id)] *)
Definition delete (db : list Doc) (id : nat) : list Doc :=
  List.filter (λ d, negb (_id d =? id)%nat) db.

Definition getCart (identity : option string) (db : list Doc) : option Doc :=
  match identity with
  | None => None
  | Some subject => first_by_user db subject
  end.

Definition updateCart (identity : option string) (now : Z) (args_items : list Item)
    (db : list Doc) : result (list Doc) :=
  match identity with
  | None => Throw "Not authenticated"
  | Some subject =>
      match first_by_user db subject with
      | Some existing => Ok (patch db (_id existing) args_items now)
      | None => Ok (insert db subject args_items now)
      end
  end.

(** The new items of [addItem] for a cart that exists. *)
Definition add_to (cart_items : list Item) (args : Item) : list Item :=
  match List.find (λ item, String.eqb (productId item) (productId args)) cart_items with
  | Some existingItem =>
      map (λ item,
             if String.eqb (productId item) (productId args)
             then {| productId := productId item; name := name item; price := price item;
                     quantity := (quantity item + quantity args)%js;
                     image := image item |}
             else item) cart_items
  | None => cart_items ++ [args]
  end.

Definition addItem (identity : option string) (now : Z) (args : Item)
    (db : list Doc) : result (list Doc) :=
  match identity with
  | None => Throw "Not authenticated"
  | Some subject =>
      match first_by_user db subject with
      | Some cart => Ok (patch db (_id cart) (add_to (items cart) args) now)
      | None => Ok (insert db subject [args] now)
      end
  end.

Definition removeItem (identity : option string) (now : Z) (args_productId : string)
    (db : list Doc) : result (list Doc) :=
  match identity with
  | None => Throw "Not authenticated"
  | Some subject =>
      match first_by_user db subject with
      | Some cart =>
          let newItems :=
            List.filter (λ item, negb (String.eqb (productId item) args_productId))
              (items cart) in
          Ok (patch db (_id cart) newItems now)
      | None => Ok db
      end
  end.

Definition clearCart (identity : option string) (db : list Doc) : result (list Doc) :=
  match identity with
  | None => Throw "Not authenticated"
  | Some subject =>
      match first_by_user db subject with
      | Some cart => Ok (delete db (_id cart))
      | None => Ok db
      end
  end.

(** The table as the mutations keep it: one document per user, one
    document per id. *)
Definition well_formed (db : list Doc) : Prop :=
  NoDup (userId <$> db) ∧ NoDup (_id <$> db).

(** The quantity a list of items holds of a product. *)
Definition quantity_of (pid : string) (cart_items : list Item) : option JS.number :=
  quantity <$> List.find (λ item, String.eqb (productId item) pid) cart_items.

(** The items of the signed-in user's cart, none without a cart. *)
Definition items_of (subject : string) (db : list Doc) : list Item :=
  match first_by_user db subject with
  | Some cart => items cart
  | None => []
  end.

(** The mutations the module exports, with their arguments. *)
Inductive Mutation : Type :=
  | UpdateCart (args_items : list Item)
  | AddItem (args : Item)
  | RemoveItem (args_productId : string)
  | ClearCart.

Definition run (m : Mutation) (identity : option string) (now : Z) (db : list Doc)
  : result (list Doc) :=
  match m with
  | UpdateCart args_items => updateCart identity now args_items db
  | AddItem args => addItem identity now args db
  | RemoveItem args_productId => removeItem identity now args_productId db
  | ClearCart => clearCart identity db
  end.

(** The tables the mutations build from the empty one.  A mutation that
    throws commits nothing, so only the ones that return take a step. *)
Inductive reachable : list Doc → Prop :=
  | reachable_empty : reachable []
  | reachable_step db m identity now db' :
      reachable db → run m identity now db = Ok db' → reachable db'.

End Cart.

(** A table of two carts for the examples: the one [addItem] builds from
    the empty table for two users. *)
Module CartSample.
Import Cart.

Definition pen : Item :=
  {| productId := "p1"; name := "Pen"; price := JS.of_Z 20;
     quantity := JS.of_Z 2; image := None |}.

Definition ink : Item :=
  {| productId := "p2"; name := "Ink"; price := JS.of_Z 50;
     quantity := JS.of_Z 1; image := None |}.

Definition table : list Doc :=
  [ {| _id := 1; userId := "alice"; items := [pen]; updatedAt := 10 |};
    {| _id := 2; userId := "bob"; items := [ink]; updatedAt := 20 |} ].

End CartSample.

(** ** Arrays as objects: the heap

    To ask whether a run of the pipeline can change what a later run
    sees, arrays are objects here: a reference names a cell of the heap
    that holds the elements, an array literal and the methods [filter],
    [slice] and [map] allocate a cell, and [push], [sort] and [splice]
    write to the cell they are called on.  An adapter answers with a
    reference, to an array that may be shared with anyone (a mock answers
    with the same array every time).  Products are values: no line of the
    source assigns to a field of a product, and [rankProducts] copies with
    a spread.  The two direct scrapers run at the same time; which one
    settles first is an argument, [amazon_first], and the [catch] of a
    scraper that rejects or times out builds its empty array when it
    settles.  [M] is the monad of heap computations that return or
    throw. *)

Module Imperative.

Abbreviation ref := positive (only parsing).
Abbreviation Heap := (gmap positive (list Product)) (only parsing).

Definition M (A : Type) : Type := Heap → result A * Heap.

#[global] Instance M_ret : MRet M := λ A a h, (Ok a, h).
#[global] Instance M_bind : MBind M := λ A B f m h,
  match m h with
  | (Ok a, h') => f a h'
  | (Throw e, h') => (Throw e, h')
  end.

Definition throw {A} (message : string) : M A := λ h, (Throw message, h).

(** A computation that does not touch the heap. *)
Definition lift {A} (r : result A) : M A := λ h, (r, h).

(** [try { body } catch (e) { handler e }]: what [body] wrote stays. *)
Definition try_catch {A} (body : M A) (handler : string → M A) : M A := λ h,
  match body h with
  | (Ok a, h') => (Ok a, h')
  | (Throw e, h') => handler e h'
  end.

(** An array literal, or any other fresh array with these elements. *)
Definition new_array (elements : list Product) : M ref := λ h,
  let r := fresh (dom h) in (Ok r, <[r := elements]> h).

(** The elements of an array, and the assignment of all of them. *)
Definition get (a : ref) : M (list Product) := λ h, (Ok (default [] (h !! a)), h).
Definition set (a : ref) (elements : list Product) : M () := λ h,
  (Ok (), <[a := elements]> h).

(** [a.push(...elements)] *)
Definition push (a : ref) (elements : list Product) : M () :=
  l ← get a; set a (l ++ elements).

(** [a.filter(f)] *)
Definition filter (f : Product → bool) (a : ref) : M ref :=
  l ← get a; new_array (List.filter f l).

(** [a.sort(compareFn)] *)
Definition sort (compareFn : Product → Product → JS.number) (a : ref) : M () :=
  l ← get a; set a (sort compareFn l).

(** [a.slice(0, count)] *)
Definition slice (a : ref) (count : nat) : M ref :=
  l ← get a; new_array (take count l).

(** [a.splice(start, deleteCount, ...elements)]: returns the array of the
    removed elements. *)
Definition splice (a : ref) (start deleteCount : nat) (elements : list Product) : M ref :=
  l ← get a;
  _ ← set a (take start l ++ elements ++ drop (start + deleteCount) l);
  new_array (take deleteCount (drop start l)).

(** [a.splice(start)]: removes, and returns, everything from [start] on. *)
Definition splice_from (a : ref) (start : nat) : M ref :=
  l ← get a; splice a start (length l - start) [].

(** *** product_ranker.js *)

Record RankResult : Type := {
  rankedProducts : ref;
  crsFailed : bool
}.

(** [rankProducts(query, productCandidates)]: on the failure paths the
    array returned is the array given. *)
Definition rankProducts (cfg : Config) (response : ScoringResponse)
    (query : string) (productCandidates : ref) : M RankResult :=
  candidates ← get productCandidates;
  if gemini_unconfigured cfg || (length candidates =? 0)%nat then
    mret {| rankedProducts := productCandidates; crsFailed := true |}
  else
    try_catch
      (let productsForAI := imap stage1 candidates in
       parsed ← lift (read_jsonText response);
       aiScores ← lift (parse_aiScores parsed);
       ranked ← lift (map_throwing (stage3 productsForAI aiScores) 0 candidates);
       rankedProducts ← new_array ranked;
       _ ← sort by_CRS_desc rankedProducts;
       mret {| rankedProducts := rankedProducts; crsFailed := false |})
      (λ error, mret {| rankedProducts := productCandidates; crsFailed := true |}).

Section WithPrinters.
Variable Number_toString : JS.number → string.
Variable toLocaleString : JS.number → string.

(** *** aiAdvisor.js *)

(** [aiVerdict(products, crsFailureMessage)] reads [products] and writes
    nothing. *)
Definition aiVerdict (cfg : Config) (response : VerdictResponse)
    (products : ref) (crsFailureMessage : string) : M string :=
  l ← get products;
  mret (aiVerdict Number_toString toLocaleString cfg response l crsFailureMessage).

(** *** aggregator.js *)

(** [deduplicateProducts(products)]: a [filter] with a [Map] of its own. *)
Definition deduplicateProducts (products : ref) : M ref :=
  l ← get products; new_array (dedup_from Number_toString ∅ l).

(** [simpleAccessoryFilter(query, products)]: for a query that names an
    accessory the array returned is the array given. *)
Definition simpleAccessoryFilter (query : string) (products : ref) : M ref :=
  if negb (isPrimaryQuery query) then mret products
  else filter keeps products.

(** What each source settles to for a query, the race against the timeout
    included: a reference to the array of its products, or a rejection. *)
Record Adapters : Type := {
  scrapeAmazon : string → result ref;
  scrapeFlipkart : string → result ref;
  searchGoogleShopping : string → result ref
}.

Record AggregationResult : Type := {
  items : ref;
  summary : string;
  metadata : Metadata
}.

(** The two [catch]es around a direct scraper: a rejection or a timeout
    becomes a new empty array. *)
Definition settle (outcome : result ref) : M ref :=
  match outcome with
  | Ok value => mret value
  | Throw _ => new_array []
  end.

(** [await Promise.allSettled(scraperPromises)] for the two scrapers: the
    results stand in the order of the scrapers, whichever settled first. *)
Definition allSettled (amazon flipkart : result ref) (amazon_first : bool)
  : M (ref * ref) :=
  if amazon_first then
    a ← settle amazon; f ← settle flipkart; mret (a, f)
  else
    f ← settle flipkart; a ← settle amazon; mret (a, f).

(** One round of the [results.forEach] of STEP 1. *)
Definition collect_direct (items : ref) (name : string) (data : ref)
    (sources : list SourceReport) : M (list SourceReport) :=
  d ← get data;
  if (0 <? length d)%nat then
    _ ← push items d;
    mret (sources ++ [source name (length d) "direct"])
  else mret (sources ++ [source name 0%nat "failed"]).

(** STEP 2. *)
Definition collect_serpapi (cfg : Config) (items : ref) (settled : result ref)
    (sources : list SourceReport) : M (list SourceReport) :=
  match settled with
  | Ok serpResults =>
      filteredResults ←
        (if USE_AMAZON_FLIPKART_DIRECT cfg
         then filter other_store serpResults
         else mret serpResults);
      direct ← filter is_direct_link filteredResults;
      d ← get direct;
      f ← get filteredResults;
      let directLinks := length d in
      let redirectLinks := (length f - directLinks)%nat in
      _ ← push items f;
      mret (sources ++ [{| src_name := "SerpAPI (Other Stores)";
                           src_count := length f;
                           src_type := Some "serpapi";
                           src_directLinks := Some directLinks;
                           src_redirectLinks := Some redirectLinks;
                           src_error := None |}])
  | Throw message =>
      mret (sources ++ [{| src_name := "SerpAPI"; src_count := 0%nat; src_type := None;
                           src_directLinks := None; src_redirectLinks := None;
                           src_error := Some message |}])
  end.

(** Everything up to and including the deduplication. *)
Definition merge (cfg : Config) (adapters : Adapters) (amazon_first : bool)
    (query : string) : M (ref * list SourceReport) :=
  items ← new_array [];
  sources ←
    (if USE_AMAZON_FLIPKART_DIRECT cfg then
       results ← allSettled (scrapeAmazon adapters query) (scrapeFlipkart adapters query)
                   amazon_first;
       sources ← collect_direct items "Amazon" results.1 [];
       collect_direct items "Flipkart" results.2 sources
     else mret []);
  sources ←
    (if USE_SERPAPI cfg
     then collect_serpapi cfg items (searchGoogleShopping adapters query) sources
     else mret sources);
  items ← filter valid items;
  items ← deduplicateProducts items;
  mret (items, sources).

(** The variables the ranking block of [getProductResults] assigns. *)
Record Ranking : Type := {
  r_items : ref;
  r_summary : string;
  r_rankedProducts : ref;
  r_rankingFailed : bool
}.

(** The [try] block of [getProductResults] with its [catch];
    [rankedProducts] is the empty array the variable starts with. *)
Definition rank_and_summarise (cfg : Config) (scoring : ScoringResponse)
    (verdict : VerdictResponse) (query : string)
    (items productsForAI rankedProducts : ref) : M Ranking :=
  try_catch
    (rankResult ← rankProducts cfg scoring query productsForAI;
     let rankedProducts := Imperative.rankedProducts rankResult in
     let rankingFailed := crsFailed rankResult in
     ranked ← get rankedProducts;
     let applies := (0 <? length ranked)%nat && negb rankingFailed in
     productsForVerdict ←
       (if applies then slice rankedProducts 5 else slice productsForAI 5);
     let rankNote :=
       if rankingFailed
       then " (Note: AI ranking temporarily unavailable, results filtered and sorted by price.)"
       else "" in
     summary ← aiVerdict cfg verdict productsForVerdict rankNote;
     _ ← (if applies then
            top ← get productsForAI;
            ranked ← get rankedProducts;
            _ ← splice items 0 (length top) ranked;
            remainingItems ← splice_from items (length top);
            _ ← sort by_price remainingItems;
            remaining ← get remainingItems;
            push items remaining
          else mret ());
     mret {| r_items := items; r_summary := summary;
             r_rankedProducts := rankedProducts; r_rankingFailed := rankingFailed |})
    (λ err,
       l ← get items;
       top ← get productsForAI;
       match top with
       | [] => throw "TypeError: Cannot read properties of undefined (reading 'price')"
       | first :: _ =>
           mret {| r_items := items;
                   r_summary :=
                     "Found " +:+ pretty (length l) +:+ " products! Best deal: ₹" +:+
                     Number_toString (price first) +:+ " from " +:+ store first +:+ ". " +:+
                     (if (discount first >? JS.of_Z 0)%js
                      then "(" +:+ Number_toString (discount first) +:+ "% off!)" else "");
                   r_rankedProducts := rankedProducts;
                   r_rankingFailed := true |}
       end).

(** The accessory filter of the fallback, the re-sort and the new summary. *)
Definition fallback (query : string) (r : Ranking) : M Ranking :=
  if r_rankingFailed r then
    before ← get (r_items r);
    items ← simpleAccessoryFilter query (r_items r);
    filtered ← get items;
    if (length filtered <? length before)%nat then
      _ ← sort by_price items;
      sorted ← get items;
      let summary :=
        match sorted with
        | newTopProduct :: _ =>
            "Found " +:+ pretty (length sorted) +:+ " products! Best deal: ₹" +:+
            Number_toString (price newTopProduct) +:+ " from " +:+
            store newTopProduct +:+
            ". (Note: AI ranking unavailable. Cheap accessories filtered out.)"
        | [] => r_summary r
        end in
      mret {| r_items := items; r_summary := summary;
              r_rankedProducts := r_rankedProducts r; r_rankingFailed := true |}
    else
      mret {| r_items := items; r_summary := r_summary r;
              r_rankedProducts := r_rankedProducts r; r_rankingFailed := true |}
  else mret r.

(** [getProductResults(query)], from the merged array on. *)
Definition rank_merged (cfg : Config) (scoring : ScoringResponse)
    (verdict : VerdictResponse) (clock : Clock) (query : string)
    (items : ref) (sources : list SourceReport) : M AggregationResult :=
  direct ← filter is_direct_link items;
  d ← get direct;
  l ← get items;
  let directLinks := length d in
  let redirectLinks := (length l - directLinks)%nat in
  if (length l =? 0)%nat then
    empty ← new_array [];
    mret {| items := empty;
            summary := getSetupMessage cfg;
            metadata :=
              {| totalResults := 0%nat; topPrice := None; topStore := None;
                 rankedByAI := false;
                 fetchTime := endTime clock - startTime clock;
                 directLinks := 0%nat; redirectLinks := 0%nat;
                 sources := sources; strategy := None |} |}
  else
    _ ← sort by_price items;
    sorted ← get items;
    productsForAI ← slice items (Nat.min 20 (length sorted));
    top ← get productsForAI;
    match top with
    | [] => throw "TypeError: Cannot read properties of undefined (reading 'price')"
    | first :: _ =>
        rankedProducts ← new_array [];
        r ← rank_and_summarise cfg scoring verdict query items productsForAI
              rankedProducts;
        r ← fallback query r;
        final ← get (r_items r);
        ranked ← get (r_rankedProducts r);
        mret {| items := r_items r;
                summary := r_summary r;
                metadata :=
                  {| totalResults := length final;
                     topPrice := price <$> head final;
                     topStore := store <$> head final;
                     rankedByAI := negb (r_rankingFailed r) && (0 <? length ranked)%nat;
                     fetchTime := endTime clock - startTime clock;
                     directLinks := directLinks;
                     redirectLinks := redirectLinks;
                     sources := sources;
                     strategy :=
                       Some {| amazonFlipkartDirect := USE_AMAZON_FLIPKART_DIRECT cfg;
                               serpApiOthers := USE_SERPAPI cfg |} |} |}
    end.

(** [getProductResults(query)] *)
Definition getProductResults (cfg : Config) (adapters : Adapters)
    (scoring : ScoringResponse) (verdict : VerdictResponse)
    (amazon_first : bool) (clock : Clock) (query : string) : M AggregationResult :=
  merged ← merge cfg adapters amazon_first query;
  rank_merged cfg scoring verdict clock query merged.1 merged.2.

End WithPrinters.

End Imperative.

(** What a settled adapter call holds, read off the heap. *)
Definition read_outcome (h : Imperative.Heap) (outcome : result Imperative.ref)
  : result (list Product) :=
  match outcome with
  | Ok value => Ok (default [] (h !! value))
  | Throw message => Throw message
  end.

(** The adapters as the value-passing pipeline takes them: each array read
    off the heap. *)
Definition heap_contents (h : Imperative.Heap) (adapters : Imperative.Adapters)
  : Adapters :=
  {| scrapeAmazon := λ query, read_outcome h (Imperative.scrapeAmazon adapters query);
     scrapeFlipkart := λ query, read_outcome h (Imperative.scrapeFlipkart adapters query);
     searchGoogleShopping :=
       λ query, read_outcome h (Imperative.searchGoogleShopping adapters query) |}.

(** Every array an adapter answers the query with is an object of the
    heap. *)
Definition allocated (h : Imperative.Heap) (adapters : Imperative.Adapters)
    (query : string) : Prop :=
  ∀ outcome value,
    outcome ∈ [Imperative.scrapeAmazon adapters query;
               Imperative.scrapeFlipkart adapters query;
               Imperative.searchGoogleShopping adapters query] →
    outcome = Ok value → is_Some (h !! value).

(** The products of a settled scraper call: none after a rejection. *)
Definition data_of (settled : result (list Product)) : list Product :=
  match settled with Ok value => value | Throw _ => [] end.

(** The two sets of adapters answer the query with the same products, or
    the same rejection, source by source. *)
Definition same_outputs (h : Imperative.Heap) (adapters1 adapters2 : Imperative.Adapters)
    (query : string) : Prop :=
  read_outcome h (Imperative.scrapeAmazon adapters1 query) =
    read_outcome h (Imperative.scrapeAmazon adapters2 query) ∧
  read_outcome h (Imperative.scrapeFlipkart adapters1 query) =
    read_outcome h (Imperative.scrapeFlipkart adapters2 query) ∧
  read_outcome h (Imperative.searchGoogleShopping adapters1 query) =
    read_outcome h (Imperative.searchGoogleShopping adapters2 query).

(** A heap for the examples: the array a mocked Amazon scraper answers
    with, the array of the search API, and a second array with the products
    of the first. *)
Definition sample_heap : Imperative.Heap :=
  {[ 1%positive := [Sample.mouse_cable; Sample.mouse];
     2%positive := [Sample.listing "Gaming Mouse" (JS.of_Z 15)];
     3%positive := [Sample.mouse_cable; Sample.mouse] ]}.

(** Mocked adapters over [sample_heap]: Amazon answers with the array
    [amazon], Flipkart times out, the search API answers with array 2. *)
Definition sample_mock (amazon : Imperative.ref) : Imperative.Adapters :=
  {| Imperative.scrapeAmazon := λ _, Ok amazon;
     Imperative.scrapeFlipkart := λ _, Throw "Timeout";
     Imperative.searchGoogleShopping := λ _, Ok 2%positive |}.

(** * Properties *)

(** ** The order on numbers *)

Module JSFacts.
Import JS.

Lemma Num_ext (x y : Qc) : (x == y)%Q → Num x = Num y.
Proof. intros H. f_equal. by apply Qc_is_canon. Qed.

Lemma lt_Num (x y : Qc) : lt (Num x) (Num y) = true ↔ (x < y)%Qc.
Proof. simpl. rewrite Qclt_alt. destruct (x ?= y)%Qc; split; congruence. Qed.

Lemma lt_Num_false (x y : Qc) : lt (Num x) (Num y) = false ↔ (y ≤ x)%Qc.
Proof.
  rewrite <- not_true_iff_false, lt_Num. split.
  - apply Qcnot_lt_le.
  - apply Qcle_not_lt.
Qed.

Lemma lt_irrefl a : lt a a = false.
Proof. destruct a; try reflexivity. apply lt_Num_false, Qcle_refl. Qed.


Lemma lt_asym a b : lt a b = true → lt b a = false.
Proof.
  destruct a, b; try (simpl; congruence).
  rewrite lt_Num, lt_Num_false. apply Qclt_le_weak.
Qed.

(** Away from NaN, "not less than" is transitive. *)
Lemma lt_negtrans a b c :
  is_nan b = false → lt a b = false → lt b c = false → lt a c = false.
Proof.
  destruct a as [x| | |], b as [y| | |], c as [z| | |]; try (simpl; congruence).
  rewrite !lt_Num_false. intros _ H1 H2. by apply Qcle_trans with y.
Qed.

(** The sign of a difference is the comparison of its operands, also at the
    infinities, where [Infinity - Infinity] is NaN and compares as a tie. *)
Lemma gt_sub_0 a b : gt (sub a b) (of_Z 0) = lt b a.
Proof.
  destruct a as [x| | |], b as [y| | |]; try reflexivity.
  unfold gt, sub, of_Z. cbn [neg add].
  apply eq_true_iff_eq. rewrite !lt_Num.
  change (Q2Qc (inject_Z 0)) with (Q2Qc 0).
  rewrite (Qclt_minus_iff y x). reflexivity.
Qed.

Lemma le_iff a b : le a b = true ↔ is_nan a = false ∧ is_nan b = false ∧ lt b a = false.
Proof. unfold le. rewrite !andb_true_iff, !negb_true_iff. tauto. Qed.

Lemma or_not_nan a b : is_nan b = false → is_nan (or a b) = false.
Proof. intros Hb. unfold or. destruct (truthy a) eqn:E; [by destruct a|done]. Qed.

(** [Math.max(0, x)] is at least [0] unless it is NaN. *)
Lemma max_0_ge x : is_nan x = false → le (of_Z 0) (max (of_Z 0) x) = true.
Proof.
  intros Hx. apply le_iff. unfold max, of_Z.
  destruct x as [q| | |]; try done.
  destruct (lt (Num (Q2Qc (inject_Z 0))) (Num q)) eqn:E; repeat split; try done.
  by apply lt_asym.
Qed.

Lemma max_nan a b : is_nan (max a b) = is_nan a || is_nan b.
Proof. destruct a, b; try reflexivity; unfold max; by destruct (lt _ _). Qed.

Lemma finite_not_nan a : is_finite a = true → is_nan a = false.
Proof. by destruct a. Qed.

Lemma max_0_finite x : is_finite x = true → is_finite (max (of_Z 0) x) = true.
Proof.
    destruct x; try done. intros _. unfold max, of_Z. by destruct (lt _ _).
Qed.

Lemma div_Num_nonzero (x y : Qc) : y ≠ zero → div (Num x) (Num y) = Num (x / y)%Qc.
Proof.
  intros Hy. simpl. destruct (y ?= zero)%Qc eqn:E; try done.
  by apply Qceq_alt in E.
Qed.

Lemma mul_nonzero (x c : Qc) : x ≠ zero → c ≠ zero → (x * c)%Qc ≠ zero.
Proof. intros Hx Hc H. apply Qcmult_integral in H as [?|?]; done. Qed.

(** [1 - x / (x * c)] does not depend on [x]. *)
Lemma ratio_const (x c : Qc) :
  x ≠ zero → c ≠ zero →
  (of_Z 1 - Num x / (Num x * Num c))%js = Num (Q2Qc 1 - / c)%Qc.
Proof.
  intros Hx Hc. cbn [mul].
  rewrite div_Num_nonzero by by apply mul_nonzero.
  unfold sub, of_Z. cbn [neg add]. f_equal.
  change (Q2Qc (inject_Z 1)) with (Q2Qc 1).
  unfold zero in *. field. done.
Qed.

End JSFacts.

(** ** The sort *)

Section SortFacts.
Context {A : Type} (compareFn : A → A → JS.number).

Lemma insert_perm x l : insert compareFn x l ≡ₚ x :: l.
Proof.
  induction l as [|y l IH]; simpl; [done|].
  destruct (after compareFn x y); [|done].
  rewrite IH. apply Permutation_swap.
Qed.

Lemma sort_perm l : sort compareFn l ≡ₚ l.
Proof.
  induction l as [|x l IH]; simpl; [done|].
  by rewrite insert_perm, IH.
Qed.

Lemma sort_length l : length (sort compareFn l) = length l.
Proof. by rewrite sort_perm. Qed.

(** Sorting a sorted list changes nothing. *)
Lemma sort_sorted_id l : Sorted (before compareFn) l → sort compareFn l = l.
Proof.
  induction 1 as [|x l Hl IH Hx]; simpl; [done|].
  rewrite IH. destruct Hx as [|y l' Hxy]; simpl; [done|].
  unfold before in Hxy. by rewrite Hxy.
Qed.

Section Consistent.
(** The comparator is consistent on the elements that satisfy [P]. *)
Variable P : A → Prop.
Hypothesis after_asym :
  ∀ a b, after compareFn a b = true → before compareFn b a.
Hypothesis before_trans :
  ∀ a b c, P b → before compareFn a b → before compareFn b c → before compareFn a c.

Lemma insert_StronglySorted x l :
  Forall P l → StronglySorted (before compareFn) l →
  StronglySorted (before compareFn) (insert compareFn x l).
Proof.
  induction l as [|y l IH]; simpl; intros HP Hl.
  - repeat constructor.
  - apply Forall_cons in HP as [HPy HP].
    apply StronglySorted_cons in Hl as [Hy Hl].
    destruct (after compareFn x y) eqn:E.
    + apply StronglySorted_cons. split; [|by apply IH].
      rewrite insert_perm. constructor; [by apply after_asym|done].
    + apply StronglySorted_cons. split; [|by apply StronglySorted_cons].
      constructor; [done|].
      eapply Forall_impl; [exact Hy|].
      intros z Hz. by apply before_trans with y.
Qed.

Lemma sort_StronglySorted l :
  Forall P l → StronglySorted (before compareFn) (sort compareFn l).
Proof.
  induction l as [|x l IH]; simpl; intros HP.
  - constructor.
  - apply Forall_cons in HP as [_ HP].
    apply insert_StronglySorted; [by rewrite sort_perm|by apply IH].
Qed.
End Consistent.

Lemma StronglySorted_filter (R : relation A) (f : A → bool) l :
  StronglySorted R l → StronglySorted R (List.filter f l).
Proof.
  induction 1 as [|x l Hl IH Hx]; simpl; [constructor|].
  destruct (f x); [|done].
  constructor; [done|].
  apply Forall_forall. intros y Hy.
  apply list_elem_of_In, filter_In in Hy as [Hy _].
  rewrite Forall_forall in Hx. by apply Hx, list_elem_of_In.
Qed.

Lemma StronglySorted_impl (R R' : relation A) (P : A → Prop) l :
  (∀ a b, P a → P b → R a b → R' a b) →
  Forall P l → StronglySorted R l → StronglySorted R' l.
Proof.
  intros HR HP Hl. induction Hl as [|x l Hl IH Hx]; [constructor|].
  apply Forall_cons in HP as [HPx HP].
  constructor; [by apply IH|].
  rewrite Forall_forall in *. intros y Hy. apply HR; auto.
Qed.
End SortFacts.

(** ** The value score *)

Lemma p_score_low (x : Qc) :
  x ≠ JS.zero → (JS.Num x >? JS.of_Z 10000)%js = false →
  p_score (JS.Num x) = JS.dec 1 2.
Proof.
  intros Hx Hr. unfold p_score, reference_price. rewrite Hr.
  unfold JS.of_Z at 4. rewrite JSFacts.ratio_const; [|done|done].
  apply JSFacts.Num_ext. reflexivity.
Qed.

(** In exact arithmetic the value score above the threshold is [3/23]; the
    code computes a double next to it (see [Binary64_value_scores]). *)
Lemma p_score_high (x : Qc) :
  (JS.Num x >? JS.of_Z 10000)%js = true →
  p_score (JS.Num x) = JS.dec 3 23.
Proof.
  intros Hr. unfold p_score, reference_price. rewrite Hr.
  assert (x ≠ JS.zero) as Hx by (intros ->; done).
  unfold JS.dec. rewrite JSFacts.ratio_const; [|done|done].
  apply JSFacts.Num_ext. reflexivity.
Qed.

(** Away from a price of [0], the value score of a finite price lies in
    the unit interval. *)
Lemma p_score_unit_interval (x : Qc) :
  x ≠ JS.zero →
  (JS.of_Z 0 <=? p_score (JS.Num x))%js = true ∧
  (p_score (JS.Num x) <=? JS.of_Z 1)%js = true.
Proof.
  intros Hx. destruct (JS.Num x >? JS.of_Z 10000)%js eqn:Hr.
  - rewrite p_score_high by done. by vm_compute.
  - rewrite p_score_low by done. by vm_compute.
Qed.

Lemma positive_nonzero (x : Qc) : (JS.Num x >? JS.of_Z 0)%js = true → x ≠ JS.zero.
Proof.
  unfold JS.gt, JS.of_Z. rewrite JSFacts.lt_Num. intros H ->.
  by apply Qclt_not_eq in H.
Qed.


(** ** [rankProducts] *)

(** C1: on every provider outcome among an unconfigured credential, an
    HTTP error, a missing or unparseable response text and a parsed
    payload that is not an array, [rankProducts] returns (it does not
    throw) the candidate list it was given, unchanged, with
    [crsFailed = true]. *)
Theorem rankProducts_degrades cfg response query productCandidates :
  scoring_unavailable cfg response →
  rankProducts cfg response query productCandidates =
    Ok {| rankedProducts := productCandidates; crsFailed := true |}.
Proof.
  intros H. unfold rankProducts.
  destruct (gemini_unconfigured cfg || (length productCandidates =? 0)%nat) eqn:E;
    [reflexivity|].
  apply orb_false_iff in E as [E _].
  destruct H as [response H| | | |jsonText message|jsonText]; try reflexivity.
  - congruence.
  - cbn. by destruct (Str.truthy jsonText).
  - cbn. by destruct (Str.truthy jsonText).
Qed.

(** [rankProducts] never throws, whatever the provider does. *)
Lemma rankProducts_returns cfg response query productCandidates :
  ∃ r, rankProducts cfg response query productCandidates = Ok r.
Proof.
  unfold rankProducts. destruct (_ || _); [by eexists|].
  unfold try_catch. destruct (_ ≫= _); by eexists.
Qed.

Lemma rankProducts_empty cfg response query :
  rankProducts cfg response query [] = Ok {| rankedProducts := []; crsFailed := true |}.
Proof. unfold rankProducts. simpl. by rewrite orb_true_r. Qed.

Lemma map_throwing_lookup {A B} (f : nat → A → result B) i l l' :
  map_throwing f i l = Ok l' →
  length l' = length l ∧
  ∀ k x, l !! k = Some x → ∃ y, f (i + k)%nat x = Ok y ∧ l' !! k = Some y.
Proof.
  revert i l'. induction l as [|a l IH]; intros i l' H; simpl in H.
  - inversion H; subst. split; [done|]. intros k x Hk. done.
  - destruct (f i a) as [y|] eqn:Ey; [|done]. simpl in H.
    destruct (map_throwing f (S i) l) as [ys|] eqn:Eys; [|done]. simpl in H.
    inversion H; subst. destruct (IH _ _ Eys) as [Hlen Hk].
    split; [simpl; by rewrite Hlen|].
    intros [|k] x Hx; simpl in *.
    + inversion Hx; subst. exists y. by rewrite Nat.add_0_r.
    + destruct (Hk _ _ Hx) as (z & Hz & Hl). exists z.
      by rewrite Nat.add_succ_r.
Qed.

(** A run that does not flag failure went through all three stages. *)
Lemma rankProducts_success cfg response query productCandidates r :
  rankProducts cfg response query productCandidates = Ok r →
  crsFailed r = false →
  ∃ jsonText aiScores ranked,
    response = Body (Some jsonText) (Ok (ScoreArray aiScores)) ∧
    map_throwing (stage3 (imap stage1 productCandidates) aiScores) 0 productCandidates
      = Ok ranked ∧
    rankedProducts r = sort by_CRS_desc ranked.
Proof.
  unfold rankProducts. destruct (_ || _).
  { intros [= <-]. done. }
  destruct response as [reason|status detail|reason|[jsonText|] parsed]; cbn;
    try (intros [= <-]; done).
  destruct (Str.truthy jsonText); cbn; [|intros [= <-]; done].
  destruct parsed as [[|aiScores]|message]; cbn; try (intros [= <-]; done).
  destruct (map_throwing _ _ _) as [ranked|] eqn:E; cbn; intros [= <-]; [|done].
  intros _. by exists jsonText, aiScores, ranked.
Qed.

Lemma find_score_absent id aiScores aiData :
  find_score id aiScores = Ok aiData →
  (∀ s, Some s ∈ aiScores → s_id s ≠ id) →
  aiData = None.
Proof.
  induction aiScores as [|[s|] rest IH]; simpl; intros H Habs.
  - by inversion H.
  - destruct (String.eqb (s_id s) id) eqn:E.
    + apply String.eqb_eq in E. exfalso. apply (Habs s); [left|done].
    + apply IH; [done|]. intros s' Hs'. apply Habs. by right.
  - done.
Qed.

Lemma stage3_inv productsForAI aiScores index p q :
  stage3 productsForAI aiScores index p = Ok q →
  ∃ aiData s,
    find_score (candidate_id p index) aiScores = Ok aiData ∧
    q = with_scores p s ∧
    R_Score s = JS.nullish (aiData ≫= s_R_Score) (JS.dec 1 2) ∧
    Irrelevance_Penalty s = JS.nullish (aiData ≫= s_Irrelevance_Penalty) (JS.of_Z 0) ∧
    P_Score s =
      JS.nullish
        (ForAI.p_score <$>
           List.find (λ item, String.eqb (ForAI.id item) (candidate_id p index)) productsForAI)
        (JS.of_Z 0) ∧
    CRS s = JS.max (JS.of_Z 0) (composite (R_Score s) (P_Score s) (Irrelevance_Penalty s)).
Proof.
  unfold stage3. destruct (find_score _ _) as [aiData|] eqn:E; [|done].
  cbn. intros [= <-]. eexists aiData, _. split; [done|]. split; [done|]. done.
Qed.

(** C7: on a run that does not flag failure, a candidate whose id occurs
    nowhere in the array the provider returned is ranked with
    [R_Score = 0.5] and [Irrelevance_Penalty = 0], so that its composite
    score is the all-neutral one, [max(0, 3 * 0.5 + P_Score - 5 * 0)]. *)
Theorem omitted_id_gets_neutral_scores
    cfg jsonText aiScores query productCandidates r index p :
  rankProducts cfg (Body (Some jsonText) (Ok (ScoreArray aiScores))) query productCandidates
    = Ok r →
  crsFailed r = false →
  productCandidates !! index = Some p →
  (∀ s, Some s ∈ aiScores → s_id s ≠ candidate_id p index) →
  ∃ s, with_scores p s ∈ rankedProducts r ∧
       R_Score s = JS.dec 1 2 ∧
       Irrelevance_Penalty s = JS.of_Z 0 ∧
       CRS s = JS.max (JS.of_Z 0) (composite (JS.dec 1 2) (P_Score s) (JS.of_Z 0)).
Proof.
  intros Hr Hok Hp Habs.
  destruct (rankProducts_success _ _ _ _ _ Hr Hok)
    as (jsonText' & aiScores' & ranked & [= <- <-] & Hmap & ->).
  apply map_throwing_lookup in Hmap as [_ Hmap].
  destruct (Hmap _ _ Hp) as (q & Hq & Hlookup). simpl in Hq.
  apply stage3_inv in Hq as (aiData & s & Hfind & -> & HR & HQ & _ & HCRS).
  apply find_score_absent in Hfind as ->; [|done].
  exists s. split.
  - rewrite sort_perm. by eapply list_elem_of_lookup_2.
  - simpl in HR, HQ. by rewrite HCRS, HR, HQ.
Qed.

(** Every ranked product carries the clamped composite of its own three
    scores. *)
Lemma ranked_CRS_formula cfg response query productCandidates r q :
  rankProducts cfg response query productCandidates = Ok r →
  crsFailed r = false →
  q ∈ rankedProducts r →
  ∃ s, scores q = Some s ∧
       CRS s = JS.max (JS.of_Z 0) (composite (R_Score s) (P_Score s) (Irrelevance_Penalty s)).
Proof.
  intros Hr Hok Hq.
  destruct (rankProducts_success _ _ _ _ _ Hr Hok)
    as (jsonText & aiScores & ranked & -> & Hmap & E).
  rewrite E, sort_perm in Hq.
  apply list_elem_of_lookup in Hq as [k Hk].
  apply map_throwing_lookup in Hmap as [Hlen Hmap].
  destruct (productCandidates !! k) as [p|] eqn:Hp.
  - destruct (Hmap _ _ Hp) as (q' & Hq' & Hlookup).
    assert (q' = q) as -> by congruence.
    apply stage3_inv in Hq' as (aiData & s & _ & -> & _ & _ & _ & HCRS).
    by exists s.
  - apply lookup_ge_None in Hp. apply lookup_lt_Some in Hk. lia.
Qed.

(** The stored score is at least [0] as soon as the composite is a number. *)
Lemma clamped_composite_nonneg r_score p_score penalty :
  JS.is_nan (composite r_score p_score penalty) = false →
  (JS.max (JS.of_Z 0) (composite r_score p_score penalty) >=? JS.of_Z 0)%js = true.
Proof. apply JSFacts.max_0_ge. Qed.

(** The final sort orders by descending score whenever every score is a
    number. *)
Lemma sort_by_CRS_desc_sorted ranked :
  Forall (λ q, JS.is_nan (CRS_of q) = false) ranked →
  StronglySorted (λ a b, (CRS_of a >=? CRS_of b)%js = true) (sort by_CRS_desc ranked).
Proof.
  intros HP.
  apply (StronglySorted_impl (before by_CRS_desc) _
           (λ q, JS.is_nan (CRS_of q) = false)); [| |].
  - intros a b Ha Hb Hab. simpl in Ha, Hb.
    apply JSFacts.le_iff. split; [done|]. split; [done|].
    unfold before, after, by_CRS_desc in Hab. by rewrite JSFacts.gt_sub_0 in Hab.
  - by rewrite sort_perm.
  - apply (sort_StronglySorted by_CRS_desc (λ q, JS.is_nan (CRS_of q) = false)); [| |done].
    + intros a b. unfold before, after, by_CRS_desc. rewrite !JSFacts.gt_sub_0.
      apply JSFacts.lt_asym.
    + intros a b c Hb. unfold before, after, by_CRS_desc. rewrite !JSFacts.gt_sub_0.
      intros H1 H2. by apply JSFacts.lt_negtrans with (CRS_of b).
Qed.

(** C8, at the failing input: for a price of [0], which Stage 1 also
    substitutes for a missing price, the reference price is [0], the
    quotient is [0/0], and the value score is NaN, outside [[0, 1]]. *)
Theorem value_score_NaN_at_zero :
  p_score (JS.of_Z 0) = JS.NaN ∧
  (JS.of_Z 0 <=? p_score (JS.of_Z 0))%js = false ∧
  (p_score (JS.of_Z 0) <=? JS.of_Z 1)%js = false ∧
  ForAI.p_score (stage1 0 Sample.unpriced_phone) = JS.NaN.
Proof. by vm_compute. Qed.

(** C2, at the failing input: the NaN of a zero price travels on.  With a
    credential and a healthy provider, a candidate whose price is [0] is
    ranked, without the failure flag, with a value score of NaN and a stored composite score [Math.max(0, NaN)] = NaN, which is
    not [>= 0]: the clamp that is to keep the score non-negative lets NaN
    through. *)
Theorem CRS_NaN_at_zero_price :
  ∃ r,
    rankProducts Sample.configured Sample.healthy "phone" [Sample.unpriced_phone] = Ok r ∧
    crsFailed r = false ∧
    P_Score <$> (rankedProducts r ≫= λ q, option_list (scores q)) = [JS.NaN] ∧
    CRS_of <$> rankedProducts r = [JS.NaN] ∧
    Forall (λ q, (CRS_of q >=? JS.of_Z 0)%js = false) (rankedProducts r).
Proof.
  eexists. split; [by vm_compute|]. split; [done|]. split; [done|]. split; [done|].
  by repeat constructor.
Qed.

Lemma composite_finite r p q :
  JS.is_finite r = true → JS.is_finite p = true → JS.is_finite q = true →
  JS.is_finite (composite r p q) = true.
Proof. by destruct r, p, q. Qed.

(** In the exact arithmetic of [JS.number]: on a run that does not flag
    failure, every ranked product whose relevance score r, value score p
    and irrelevance penalty q are finite carries the composite score
    [max(0, 3*r + 1*p - 5*q)], which is at least [0] (it is [0] for
    [q = 0.9] and [r = p = 0]), and the returned list is sorted by that
    score, descending. *)
Lemma finite_scores_clamped_and_sorted cfg response query productCandidates result :
  rankProducts cfg response query productCandidates = Ok result →
  crsFailed result = false →
  Forall (λ q, ∀ s, scores q = Some s → numeric_scores s) (rankedProducts result) →
  Forall (λ q, ∃ s, scores q = Some s ∧
             CRS s =
               JS.max (JS.of_Z 0)
                 (JS.of_Z 3 * R_Score s + JS.of_Z 1 * P_Score s
                  - JS.of_Z 5 * Irrelevance_Penalty s)%js ∧
             (CRS s >=? JS.of_Z 0)%js = true)
    (rankedProducts result) ∧
  JS.max (JS.of_Z 0) (JS.of_Z 3 * JS.of_Z 0 + JS.of_Z 1 * JS.of_Z 0 - JS.of_Z 5 * JS.dec 9 10)%js
    = JS.of_Z 0 ∧
  StronglySorted (λ a b, (CRS_of a >=? CRS_of b)%js = true) (rankedProducts result).
Proof.
  intros Hr Hok Hnum. rewrite Forall_forall in Hnum.
  assert (∀ q, q ∈ rankedProducts result →
            ∃ s, scores q = Some s ∧
                 CRS s = JS.max (JS.of_Z 0)
                           (composite (R_Score s) (P_Score s) (Irrelevance_Penalty s)) ∧
                 JS.is_finite (composite (R_Score s) (P_Score s) (Irrelevance_Penalty s))
                   = true) as Hscored.
  { intros q Hq. destruct (ranked_CRS_formula _ _ _ _ _ _ Hr Hok Hq) as (s & Hs & HCRS).
    exists s. split; [done|]. split; [done|].
    destruct (Hnum q Hq s Hs) as (HR & HP & HQ). by apply composite_finite. }
  split; [|split].
  - apply Forall_forall. intros q Hq. destruct (Hscored q Hq) as (s & Hs & HCRS & Hfin).
    exists s. split; [done|]. split; [exact HCRS|].
    rewrite HCRS. by apply JSFacts.max_0_ge, JSFacts.finite_not_nan.
  - by vm_compute.
  - destruct (rankProducts_success _ _ _ _ _ Hr Hok)
      as (jsonText & aiScores & ranked & _ & _ & E).
    rewrite E. apply sort_by_CRS_desc_sorted.
    apply Forall_forall. intros q Hq.
    destruct (Hscored q) as (s & Hs & HCRS & Hfin); [by rewrite E, sort_perm|].
    unfold CRS_of. rewrite Hs, HCRS.
    by apply JSFacts.finite_not_nan, JSFacts.max_0_finite.
Qed.

(** When do the three scores come out as numbers?  Whenever every
    candidate has a finite price other than [0] and the provider gives
    finite scores. *)

Lemma p_score_finite (x : Qc) : x ≠ JS.zero → JS.is_finite (p_score (JS.Num x)) = true.
Proof.
  intros Hx. destruct (JS.Num x >? JS.of_Z 10000)%js eqn:Hr.
  - by rewrite p_score_high.
  - by rewrite p_score_low.
Qed.

Lemma stage1_p_score_finite index p :
  priced p → JS.is_finite (ForAI.p_score (stage1 index p)) = true.
Proof.
  intros (x & Hp & Hx). unfold stage1. simpl. rewrite Hp. unfold JS.or.
  assert (JS.truthy (JS.Num x) = true) as ->.
  { simpl. destruct (x ?= JS.zero)%Qc eqn:E; try done. by apply Qceq_alt in E. }
  by apply p_score_finite.
Qed.

Lemma find_score_elem id aiScores s :
  find_score id aiScores = Ok (Some s) → Some s ∈ aiScores.
Proof.
  induction aiScores as [|[s'|] rest IH]; simpl; try done.
  destruct (String.eqb _ _).
  - intros [= ->]. by left.
  - intros H. right. by apply IH.
Qed.

Lemma stage3_numeric productsForAI aiScores index p q :
  Forall (λ item, JS.is_finite (ForAI.p_score item) = true) productsForAI →
  Forall (λ e, ∀ s, e = Some s → finite_scores s) aiScores →
  stage3 productsForAI aiScores index p = Ok q →
  ∀ s, scores q = Some s → numeric_scores s.
Proof.
  intros Hitems Hscores Hq s' Hs'.
  apply stage3_inv in Hq as (aiData & s & Hfind & -> & HR & HQ & HP & HCRS).
  injection Hs' as <-. rewrite Forall_forall in Hscores. rewrite Forall_forall in Hitems.
  split; [|split].
  - rewrite HR. destruct aiData as [a|]; [|done]. simpl.
    destruct (s_R_Score a) as [r|] eqn:E; [|done]. simpl.
    apply find_score_elem in Hfind.
    destruct (Hscores _ Hfind a eq_refl) as [H _]. by apply H.
  - rewrite HP. destruct (List.find _ _) as [item|] eqn:E; [|done]. simpl.
    apply find_some in E as [E _]. by apply Hitems, list_elem_of_In.
  - rewrite HQ. destruct aiData as [a|]; [|done]. simpl.
    destruct (s_Irrelevance_Penalty a) as [r|] eqn:E; [|done]. simpl.
    apply find_score_elem in Hfind.
    destruct (Hscores _ Hfind a eq_refl) as [_ H]. by apply H.
Qed.

Lemma ranked_scores_numeric cfg jsonText aiScores query productCandidates r :
  rankProducts cfg (Body (Some jsonText) (Ok (ScoreArray aiScores))) query productCandidates
    = Ok r →
  crsFailed r = false →
  Forall priced productCandidates →
  Forall (λ e, ∀ s, e = Some s → finite_scores s) aiScores →
  Forall (λ q, ∀ s, scores q = Some s → numeric_scores s) (rankedProducts r).
Proof.
  intros Hr Hok Hpriced Hscores.
  destruct (rankProducts_success _ _ _ _ _ Hr Hok)
    as (jsonText' & aiScores' & ranked & [= <- <-] & Hmap & ->).
  assert (Forall (λ item, JS.is_finite (ForAI.p_score item) = true)
            (imap stage1 productCandidates)) as Hitems.
  { apply Forall_forall. intros item Hitem.
    apply list_elem_of_lookup in Hitem as [i Hi].
    rewrite list_lookup_imap in Hi.
    destruct (productCandidates !! i) as [p|] eqn:Hp; [|done].
    injection Hi as <-. apply stage1_p_score_finite.
    rewrite Forall_forall in Hpriced. by eapply Hpriced, list_elem_of_lookup_2. }
  rewrite sort_perm. apply Forall_forall. intros q Hq.
  apply list_elem_of_lookup in Hq as [k Hk].
  apply map_throwing_lookup in Hmap as [Hlen Hmap].
  destruct (productCandidates !! k) as [p|] eqn:Hp.
  - destruct (Hmap _ _ Hp) as (q' & Hq' & Hlookup).
    assert (q' = q) as -> by congruence.
    by eapply stage3_numeric.
  - apply lookup_ge_None in Hp. apply lookup_lt_Some in Hk. lia.
Qed.

Lemma unit_scores_finite s : unit_scores s → finite_scores s.
Proof.
  intros [HR HQ]. split.
  - intros r Hr. destruct (HR r Hr) as [H0 H1]. by destruct r.
  - intros q Hq. destruct (HQ q Hq) as [H0 H1]. by destruct q.
Qed.

(** Away from the failing input of C2: when every candidate has a finite
    price other than [0] and the provider's scores lie in [[0, 1]], every
    ranked product carries the composite score [max(0, 3*r + 1*p - 5*q)]
    of its three scores, which is at least [0], and the returned list is
    sorted by that score, descending. *)
Lemma composite_score_clamped_and_sorted
    cfg jsonText aiScores query productCandidates result :
  rankProducts cfg (Body (Some jsonText) (Ok (ScoreArray aiScores))) query productCandidates
    = Ok result →
  crsFailed result = false →
  Forall priced productCandidates →
  Forall (λ e, ∀ s, e = Some s → unit_scores s) aiScores →
  Forall (λ q, ∃ s, scores q = Some s ∧
             CRS s =
               JS.max (JS.of_Z 0)
                 (JS.of_Z 3 * R_Score s + JS.of_Z 1 * P_Score s
                  - JS.of_Z 5 * Irrelevance_Penalty s)%js ∧
             (CRS s >=? JS.of_Z 0)%js = true)
    (rankedProducts result) ∧
  StronglySorted (λ a b, (CRS_of a >=? CRS_of b)%js = true) (rankedProducts result).
Proof.
  intros Hr Hok Hpriced Hunit.
  assert (Forall (λ e, ∀ s, e = Some s → finite_scores s) aiScores) as Hfin.
  { eapply Forall_impl; [exact Hunit|]. intros e He s Hs.
    by apply unit_scores_finite, He. }
  pose proof (ranked_scores_numeric _ _ _ _ _ _ Hr Hok Hpriced Hfin) as Hnum.
  destruct (finite_scores_clamped_and_sorted _ _ _ _ _ Hr Hok Hnum) as (H1 & _ & H2).
  by split.
Qed.



Section Binary64Facts.
Import PrimFloat.

(** The value scores of the code, computed in binary64.  Up to 10000 they
    are the [0.5] of the exact model.  Above, the exact model gives [3/23]
    for every price; the code gives a double next to it that depends on
    the price and goes down from 10001 to 10002 and up from 10004 to
    10005, is the same at 20000 and 40000, and is [1] once [price * 1.15]
    overflows. *)
Lemma Binary64_value_scores :
  let score := Binary64.p_score in
  (score 5 =? 0.5)%float && (score 25 =? 0.5)%float && (score 10000 =? 0.5)%float &&
  (score 10002 <? score 10001)%float &&
  (score 10004 <? score 10005)%float &&
  (score 20000 =? score 40000)%float &&
  (score 0x1.cp+1023 =? 1)%float = true.
Proof. vm_compute. reflexivity. Qed.
End Binary64Facts.

Lemma rankProducts_degrades_witness :
  rankProducts Sample.configured (Body (Some "{}") (Ok NotAnArray)) "phone"
    [Sample.phone; Sample.mouse] =
  Ok {| rankedProducts := [Sample.phone; Sample.mouse]; crsFailed := true |}.
Proof.
  apply (rankProducts_degrades Sample.configured (Body (Some "{}") (Ok NotAnArray))).
  apply payload_not_array.
Defined.

(** A run on two listings with a provider that returns no score at all. *)
Lemma Sample_run :
  rankProducts Sample.configured Sample.healthy "mouse" [Sample.phone; Sample.mouse] =
    Ok {| rankedProducts :=
            sort by_CRS_desc [Sample.neutral Sample.phone; Sample.neutral Sample.mouse];
          crsFailed := false |}.
Proof.
  unfold rankProducts. cbn -[sort]. do 3 f_equal; apply (f_equal (with_scores _));
    by (f_equal; apply JSFacts.Num_ext).
Qed.

Lemma omitted_id_gets_neutral_scores_witness :
  ∃ s, with_scores Sample.mouse s ∈
         sort by_CRS_desc [Sample.neutral Sample.phone; Sample.neutral Sample.mouse] ∧
       R_Score s = JS.dec 1 2 ∧
       Irrelevance_Penalty s = JS.of_Z 0 ∧
       CRS s = JS.max (JS.of_Z 0) (composite (JS.dec 1 2) (P_Score s) (JS.of_Z 0)).
Proof.
  refine (omitted_id_gets_neutral_scores Sample.configured "[]" [] "mouse"
            [Sample.phone; Sample.mouse]
            {| rankedProducts := _; crsFailed := false |} 1%nat Sample.mouse _ _ _ _).
  - apply Sample_run.
  - reflexivity.
  - reflexivity.
  - intros s Hs. by apply elem_of_nil in Hs.
Defined.

(** ** The accessory filter *)





(** ** The price order *)

Lemma after_by_price a b :
  after by_price a b = (JS.or (price b) JS.Infinity <? JS.or (price a) JS.Infinity)%js.
Proof. unfold after, by_price. apply JSFacts.gt_sub_0. Qed.

Lemma sort_by_price_sorted l : StronglySorted (before by_price) (sort by_price l).
Proof.
  apply (sort_StronglySorted by_price (λ _, True)).
  - intros a b. unfold before. rewrite !after_by_price. apply JSFacts.lt_asym.
  - intros a b c _. unfold before. rewrite !after_by_price. intros H1 H2.
    apply JSFacts.lt_negtrans with (JS.or (price b) JS.Infinity); [|done..].
    by apply JSFacts.or_not_nan.
  - by apply Forall_forall.
Qed.

(** The accessory filter leaves a price-sorted list price-sorted, so that
    the re-sort of the fallback changes nothing. *)
Lemma simpleAccessoryFilter_sorted_resort query l :
  sort by_price (simpleAccessoryFilter query (sort by_price l)) =
    simpleAccessoryFilter query (sort by_price l).
Proof.
  apply sort_sorted_id, StronglySorted_Sorted.
  unfold simpleAccessoryFilter. destruct (negb (isPrimaryQuery query)).
  - apply sort_by_price_sorted.
  - apply StronglySorted_filter, sort_by_price_sorted.
Qed.

Lemma top_slice_sorted_nonempty l :
  l ≠ [] → ∃ first rest, top_slice (sort by_price l) = first :: rest.
Proof.
  intros Hl. unfold top_slice.
  destruct (sort by_price l) as [|first rest] eqn:E.
  - apply (f_equal length) in E. rewrite sort_length in E. by destruct l.
  - simpl. by eexists _, _.
Qed.

(** ** Deduplication and the orchestrator *)

Section PipelineFacts.
Variable Number_toString : JS.number → string.
Variable toLocaleString : JS.number → string.

Lemma dedup_from_elem seen l p :
  p ∈ dedup_from Number_toString seen l →
  (dedup_key Number_toString p ∉ seen) ∧ p ∈ l.
Proof.
  revert seen. induction l as [|q l IH]; simpl; intros seen Hp.
  - by apply elem_of_nil in Hp.
  - destruct (decide (dedup_key Number_toString q ∈ seen)) as [Hin|Hout].
    + destruct (IH _ Hp). split; [done|by right].
    + apply elem_of_cons in Hp as [->|Hp]; [split; [done|by left]|].
      destruct (IH _ Hp) as [Hk Hl]. split; [set_solver|by right].
Qed.

Lemma dedup_from_NoDup seen l :
  NoDup (dedup_key Number_toString <$> dedup_from Number_toString seen l).
Proof.
  revert seen. induction l as [|q l IH]; simpl; intros seen.
  - constructor.
  - destruct (decide (dedup_key Number_toString q ∈ seen)) as [Hin|Hout]; [apply IH|].
    rewrite fmap_cons. constructor; [|apply IH].
    intros (p & Hkey & Hp)%list_elem_of_fmap.
    apply dedup_from_elem in Hp as [Hp _]. set_solver.
Qed.


(** What [seen] holds after a prefix is the keys of that prefix. *)
Lemma dedup_from_app seen l1 l2 :
  dedup_from Number_toString seen (l1 ++ l2) =
    dedup_from Number_toString seen l1 ++
    dedup_from Number_toString
      (list_to_set (dedup_key Number_toString <$> l1) ∪ seen) l2.
Proof.
  revert seen. induction l1 as [|q l1 IH]; simpl; intros seen.
  - f_equal. set_solver.
  - destruct (decide (dedup_key Number_toString q ∈ seen)) as [Hin|Hout].
    + rewrite IH. do 2 f_equal. set_solver.
    + rewrite IH. simpl. do 3 f_equal. set_solver.
Qed.


Lemma rank_and_summarise_failed cfg scoring verdict query items productsForAI first r :
  rankProducts cfg scoring query productsForAI = Ok r →
  crsFailed r = true →
  let ranking := rank_and_summarise Number_toString toLocaleString
                   cfg scoring verdict query items productsForAI first in
  r_items ranking = items ∧ r_rankingFailed ranking = true.
Proof.
  intros Hr Hf. unfold rank_and_summarise. rewrite Hr. cbn. rewrite Hf.
  by rewrite andb_false_r.
Qed.



(** [getProductResults] never throws. *)
Lemma getProductResults_returns cfg adapters scoring verdict clock query :
  ∃ res, getProductResults Number_toString toLocaleString
           cfg adapters scoring verdict clock query = Ok res.
Proof.
  unfold getProductResults.
  destruct (merge Number_toString cfg adapters query) as [merged sources].
  unfold rank_merged. destruct (length merged =? 0)%nat eqn:E; [by eexists|].
  assert (merged ≠ []) as Hne by (intros ->; done).
  destruct (top_slice_sorted_nonempty _ Hne) as (first & rest & ->).
  by eexists.
Qed.

(** C10: whatever the credential and whatever the provider answers,
    [rankProducts] on an empty candidate list returns that empty list
    with [crsFailed = true]; the ranking block of the orchestrator, run
    on an empty slice, therefore ends with [rankingFailed] set and the
    items untouched, and the fallback applies the accessory filter (and
    its re-sort) to them. *)
Theorem empty_slice_takes_fallback cfg scoring verdict query items first :
  rankProducts cfg scoring query [] = Ok {| rankedProducts := []; crsFailed := true |} ∧
  let ranking := rank_and_summarise Number_toString toLocaleString
                   cfg scoring verdict query items [] first in
  r_rankingFailed ranking = true ∧
  r_items ranking = items ∧
  r_rankingFailed (fallback Number_toString query ranking) = true ∧
  r_items (fallback Number_toString query ranking) =
    (let filtered := simpleAccessoryFilter query items in
     if (length filtered <? length items)%nat then sort by_price filtered else filtered).
Proof.
  split; [apply rankProducts_empty|].
  destruct (rank_and_summarise_failed cfg scoring verdict query items [] first _
              (rankProducts_empty cfg scoring query) eq_refl) as [Hitems Hfailed].
  cbv zeta. split; [done|]. split; [done|].
  unfold fallback. rewrite Hfailed, Hitems.
  by destruct (_ <? _)%nat.
Qed.
End PipelineFacts.


(** * Further properties *)

(** ** [rankProducts]: what it returns, whatever the provider does *)

Lemma map_throwing_stage3_scores productsForAI aiScores index candidates ranked :
  map_throwing (stage3 productsForAI aiScores) index candidates = Ok ranked →
  ∃ ss, length ss = length candidates ∧ ranked = zip_with with_scores candidates ss.
Proof.
  revert index ranked. induction candidates as [|p l IH]; intros index ranked H; simpl in H.
  - injection H as <-. by exists [].
  - destruct (stage3 _ _ index p) as [q|] eqn:Eq; [|done]. simpl in H.
    destruct (map_throwing _ (S index) l) as [qs|] eqn:Eqs; [|done]. simpl in H.
    injection H as <-.
    apply stage3_inv in Eq as (_ & s & _ & -> & _).
    destruct (IH _ _ Eqs) as (ss & Hlen & ->).
    exists (s :: ss). split; [simpl; by rewrite Hlen|done].
Qed.

(** A result that flags failure carries the list it was given. *)
Lemma rankProducts_failed_input cfg response query productCandidates r :
  rankProducts cfg response query productCandidates = Ok r →
  crsFailed r = true →
  r = {| rankedProducts := productCandidates; crsFailed := true |}.
Proof.
  unfold rankProducts. destruct (_ || _); [by intros [= <-]|].
  unfold try_catch. destruct (_ ≫= _) as [r'|] eqn:E; [|by intros [= <-]].
  intros [= ->] Hf. exfalso. revert E.
  destruct (read_jsonText response) as [parsed|]; cbn; [|done].
  destruct (parse_aiScores parsed) as [aiScores|]; cbn; [|done].
  destruct (map_throwing _ _ _); cbn; [|done].
  intros [= <-]. done.
Qed.

(** X1: [rankProducts] never throws, and what it returns is one of two things:
    the input list itself with the failure flag, or, without the flag, the
    candidates in some order, each with four scores attached and nothing
    else changed: no candidate is lost, none is duplicated. *)
Theorem rankProducts_outcomes cfg response query productCandidates :
  ∃ r, rankProducts cfg response query productCandidates = Ok r ∧
    ((crsFailed r = true ∧ rankedProducts r = productCandidates) ∨
     (crsFailed r = false ∧
      ∃ ss, length ss = length productCandidates ∧
            rankedProducts r ≡ₚ zip_with with_scores productCandidates ss)).
Proof.
  destruct (rankProducts_returns cfg response query productCandidates) as [r Hr].
  exists r. split; [done|].
  destruct (crsFailed r) eqn:Hf.
  - left. split; [done|]. by rewrite (rankProducts_failed_input _ _ _ _ _ Hr Hf).
  - right. split; [done|].
    destruct (rankProducts_success _ _ _ _ _ Hr Hf)
      as (jsonText & aiScores & ranked & _ & Hmap & ->).
    apply map_throwing_stage3_scores in Hmap as (ss & Hlen & ->).
    exists ss. split; [done|]. apply sort_perm.
Qed.

Lemma find_score_null id aiScores :
  None ∈ aiScores →
  (∀ s, Some s ∈ aiScores → s_id s ≠ id) →
  ∃ message, find_score id aiScores = Throw message.
Proof.
  induction aiScores as [|[s|] rest IH]; simpl; intros Hnull Habs.
  - by apply elem_of_nil in Hnull.
  - destruct (String.eqb (s_id s) id) eqn:E.
    + apply String.eqb_eq in E. exfalso. apply (Habs s); [left|done].
    + apply IH.
      * by apply elem_of_cons in Hnull as [?|?].
      * intros s' Hs'. apply Habs. by right.
  - by eexists.
Qed.

(** X2: A [null] among the elements of the provider's array makes the whole
    ranking fail as soon as one candidate's id matches no element: the
    search for that id reads [.id] of the [null], the throw is caught, and
    the input list comes back with the failure flag. *)
Theorem null_entry_fails_ranking cfg jsonText aiScores query productCandidates index p :
  None ∈ aiScores →
  productCandidates !! index = Some p →
  (∀ s, Some s ∈ aiScores → s_id s ≠ candidate_id p index) →
  rankProducts cfg (Body (Some jsonText) (Ok (ScoreArray aiScores))) query productCandidates =
    Ok {| rankedProducts := productCandidates; crsFailed := true |}.
Proof.
  intros Hnull Hp Habs.
  destruct (rankProducts_returns cfg (Body (Some jsonText) (Ok (ScoreArray aiScores)))
              query productCandidates) as [r Hr].
  destruct (crsFailed r) eqn:Hf.
  - by rewrite Hr, (rankProducts_failed_input _ _ _ _ _ Hr Hf).
  - exfalso.
    destruct (rankProducts_success _ _ _ _ _ Hr Hf)
      as (jsonText' & aiScores' & ranked & [= <- <-] & Hmap & _).
    apply map_throwing_lookup in Hmap as [_ Hmap].
    destruct (Hmap _ _ Hp) as (q & Hq & _). simpl in Hq.
    apply stage3_inv in Hq as (aiData & _ & Hfind & _).
    destruct (find_score_null _ _ Hnull Habs) as [m Hm]. congruence.
Qed.

Lemma null_entry_fails_ranking_witness :
  rankProducts Sample.configured (Body (Some "[null]") (Ok (ScoreArray [None]))) "phone"
    [Sample.phone] =
  Ok {| rankedProducts := [Sample.phone]; crsFailed := true |}.
Proof.
  apply (null_entry_fails_ranking Sample.configured "[null]" [None] "phone"
           [Sample.phone] 0%nat Sample.phone).
  - by left.
  - reflexivity.
  - intros s Hs. apply elem_of_cons in Hs as [Hs|Hs]; [discriminate|].
    by apply elem_of_nil in Hs.
Defined.

Lemma find_score_first id pre s post :
  Forall (λ e, ∃ s', e = Some s' ∧ s_id s' ≠ id) pre →
  s_id s = id →
  find_score id (pre ++ Some s :: post) = Ok (Some s).
Proof.
  intros Hpre Hs. induction Hpre as [|e pre (s' & -> & Hne) _ IH]; simpl.
  - apply String.eqb_eq in Hs. by rewrite Hs.
  - apply String.eqb_neq in Hne. by rewrite Hne.
Qed.

(** X3: When several elements of the provider's array carry a candidate's id,
    the first one decides, whatever follows it; and of that element each
    score is taken by itself: a missing [R_Score] becomes [0.5] and a
    missing [Irrelevance_Penalty] becomes [0] while the other is kept. *)
Theorem first_matching_entry_scores
    cfg jsonText pre s post query productCandidates r index p :
  rankProducts cfg (Body (Some jsonText) (Ok (ScoreArray (pre ++ Some s :: post))))
    query productCandidates = Ok r →
  crsFailed r = false →
  productCandidates !! index = Some p →
  Forall (λ e, ∃ s', e = Some s' ∧ s_id s' ≠ candidate_id p index) pre →
  s_id s = candidate_id p index →
  ∃ sc, with_scores p sc ∈ rankedProducts r ∧
        R_Score sc = JS.nullish (s_R_Score s) (JS.dec 1 2) ∧
        Irrelevance_Penalty sc = JS.nullish (s_Irrelevance_Penalty s) (JS.of_Z 0).
Proof.
  intros Hr Hok Hp Hpre Hs.
  destruct (rankProducts_success _ _ _ _ _ Hr Hok)
    as (jsonText' & aiScores' & ranked & [= <- <-] & Hmap & ->).
  apply map_throwing_lookup in Hmap as [_ Hmap].
  destruct (Hmap _ _ Hp) as (q & Hq & Hlookup). simpl in Hq.
  apply stage3_inv in Hq as (aiData & sc & Hfind & -> & HR & HQ & _).
  rewrite (find_score_first _ _ _ _ Hpre Hs) in Hfind. injection Hfind as <-.
  exists sc. split; [|done].
  rewrite sort_perm. by eapply list_elem_of_lookup_2.
Qed.

Lemma first_matching_entry_scores_witness :
  ∃ r sc,
    rankProducts Sample.configured
      (Body (Some "[...]")
         (Ok (ScoreArray
                [Some {| s_id := "0"; s_R_Score := None;
                         s_Irrelevance_Penalty := Some (JS.dec 9 10) |};
                 Some {| s_id := "0"; s_R_Score := Some (JS.of_Z 1);
                         s_Irrelevance_Penalty := Some (JS.of_Z 0) |}])))
      "phone" [Sample.phone] = Ok r ∧
    with_scores Sample.phone sc ∈ rankedProducts r ∧
    R_Score sc = JS.dec 1 2 ∧
    Irrelevance_Penalty sc = JS.dec 9 10.
Proof.
  set (first := {| s_id := "0"; s_R_Score := None;
                   s_Irrelevance_Penalty := Some (JS.dec 9 10) |}).
  set (second := {| s_id := "0"; s_R_Score := Some (JS.of_Z 1);
                    s_Irrelevance_Penalty := Some (JS.of_Z 0) |}).
  set (response := Body (Some "[...]") (Ok (ScoreArray [Some first; Some second]))).
  assert (∃ r, rankProducts Sample.configured response "phone" [Sample.phone] = Ok r ∧
               crsFailed r = false) as (r & Hr & Hf)
    by (vm_compute; eexists; split; reflexivity).
  destruct (first_matching_entry_scores Sample.configured "[...]" [] first [Some second]
              "phone" [Sample.phone] r 0%nat Sample.phone Hr Hf eq_refl
              (Forall_nil_2 _) eq_refl) as (sc & Hin & HR & HQ).
  by exists r, sc.
Defined.

Lemma le_Num (x y : Qc) : (JS.Num x <=? JS.Num y)%js = true ↔ (x ≤ y)%Qc.
Proof.
  rewrite JSFacts.le_iff. simpl JS.is_nan. rewrite JSFacts.lt_Num_false. tauto.
Qed.

(** X4: With the weights 3, 1 and 5, a penalty of [0.9] zeroes the composite
    score of any candidate whose relevance and value scores are in
    [[0, 1]]: [3r + p - 4.5] is negative and the clamp stores [0]. *)
Theorem penalty_zeroes_score (r p : Qc) :
  (JS.of_Z 0 <=? JS.Num r)%js = true → (JS.Num r <=? JS.of_Z 1)%js = true →
  (JS.of_Z 0 <=? JS.Num p)%js = true → (JS.Num p <=? JS.of_Z 1)%js = true →
  JS.max (JS.of_Z 0) (composite (JS.Num r) (JS.Num p) (JS.dec 9 10)) = JS.of_Z 0.
Proof.
  unfold JS.of_Z. rewrite !le_Num. intros Hr0 Hr1 Hp0 Hp1.
  unfold composite, W_R, W_P, W_IR, JS.dec, JS.of_Z, JS.sub. cbn [JS.mul JS.add JS.neg].
  unfold JS.max.
  destruct (JS.lt _ _) eqn:E; [|done]. exfalso.
  apply JSFacts.lt_Num in E. revert E Hr1 Hp1.
  unfold Qclt, Qcle, Qcplus, Qcmult, Qcopp, Q2Qc. cbn [this].
  rewrite !Qred_correct. unfold inject_Z. intros. lra.
Qed.

Lemma penalty_zeroes_score_witness :
  JS.max (JS.of_Z 0) (composite (JS.of_Z 1) (JS.of_Z 1) (JS.dec 9 10)) = JS.of_Z 0.
Proof.
  apply (penalty_zeroes_score (Q2Qc (inject_Z 1)) (Q2Qc (inject_Z 1))); by vm_compute.
Defined.

Lemma candidate_id_without_id p index : without_id p → candidate_id p index = pretty index.
Proof. unfold candidate_id. by intros [-> | ->]. Qed.

Lemma find_own_entry l k i p :
  Forall without_id l →
  l !! i = Some p →
  List.find (λ item, String.eqb (ForAI.id item) (pretty (k + i)%nat))
    (imap (λ j, stage1 (k + j)) l) = Some (stage1 (k + i) p).
Proof.
  revert k i. induction l as [|x l IH]; intros k i Hl Hi; [done|].
  apply Forall_cons in Hl as [Hx Hl]. simpl.
  rewrite (candidate_id_without_id _ _ Hx).
  destruct i as [|i]; simpl in Hi.
  - injection Hi as ->. rewrite Nat.add_0_r, String.eqb_refl. done.
  - assert (String.eqb (pretty (k + 0)%nat) (pretty (k + S i)%nat) = false) as ->.
    { apply String.eqb_neq. intros E%(inj pretty). lia. }
    rewrite (imap_ext _ (λ j, stage1 (S k + j))).
    + rewrite <- Nat.add_succ_comm. by apply IH.
    + intros j y _. simpl. f_equal. lia.
Qed.

(** X5: When no candidate carries an id, the positional ids are pairwise
    distinct, Stage 3 finds for each candidate its own Stage 1 entry, and
    the [P_Score] stored on a ranked product is the value score of that
    product's own price (of [0] for a price that is [0] or NaN). *)
Theorem own_value_score cfg response query productCandidates r index p :
  rankProducts cfg response query productCandidates = Ok r →
  crsFailed r = false →
  Forall without_id productCandidates →
  productCandidates !! index = Some p →
  ∃ sc, with_scores p sc ∈ rankedProducts r ∧
        P_Score sc = p_score (JS.or (price p) (JS.of_Z 0)).
Proof.
  intros Hr Hok Hids Hp.
  destruct (rankProducts_success _ _ _ _ _ Hr Hok)
    as (jsonText & aiScores & ranked & _ & Hmap & ->).
  apply map_throwing_lookup in Hmap as [_ Hmap].
  destruct (Hmap _ _ Hp) as (q & Hq & Hlookup). simpl in Hq.
  apply stage3_inv in Hq as (aiData & sc & _ & -> & _ & _ & HP & _).
  exists sc. split; [rewrite sort_perm; by eapply list_elem_of_lookup_2|].
  rewrite HP. rewrite Forall_forall in Hids.
  rewrite (candidate_id_without_id p index)
    by by eapply Hids, list_elem_of_lookup_2.
  assert (List.find (λ item, String.eqb (ForAI.id item) (pretty index))
            (imap stage1 productCandidates) = Some (stage1 index p)) as ->; [|done].
  apply (find_own_entry productCandidates 0 index p); [|done]. by apply Forall_forall.
Qed.

Lemma own_value_score_witness :
  ∃ sc, with_scores Sample.mouse sc ∈
          sort by_CRS_desc [Sample.neutral Sample.phone; Sample.neutral Sample.mouse] ∧
        P_Score sc = p_score (JS.or (price Sample.mouse) (JS.of_Z 0)).
Proof.
  apply (own_value_score Sample.configured Sample.healthy "mouse"
           [Sample.phone; Sample.mouse] _ 1%nat Sample.mouse Sample_run eq_refl).
  - repeat constructor; by left.
  - reflexivity.
Defined.

(** ** Strings *)

Lemma toLowerCase_app s t :
  Str.toLowerCase (s +:+ t) = Str.toLowerCase s +:+ Str.toLowerCase t.
Proof.
  induction s as [|c s IH]; [done|].
  change (String c s +:+ t) with (String c (s +:+ t)). simpl. by rewrite IH.
Qed.

Lemma toLowerCase_length s : String.length (Str.toLowerCase s) = String.length s.
Proof. induction s as [|c s IH]; [done|]. simpl. by rewrite IH. Qed.

Lemma slice0_app n s t :
  (n ≤ String.length s)%nat → Str.slice0 n (s +:+ t) = Str.slice0 n s.
Proof.
  revert s. induction n as [|n IH]; intros [|c s] Hlen; simpl in *; try done; try lia.
  change (String c s +:+ t) with (String c (s +:+ t)). simpl.
  rewrite IH; [done|lia].
Qed.

Lemma truthy_app_l s t : Str.truthy s = true → Str.truthy (s +:+ t) = true.
Proof. by destruct s. Qed.

(** ** Lists *)

Lemma filter_idem {A} (f : A → bool) l : List.filter f (List.filter f l) = List.filter f l.
Proof.
  induction l as [|x l IH]; simpl; [done|].
  destruct (f x) eqn:E; simpl; [|done]. by rewrite E, IH.
Qed.

Lemma filter_sublist {A} (f : A → bool) l : sublist (List.filter f l) l.
Proof.
  induction l as [|x l IH]; simpl; [constructor|].
  destruct (f x); by constructor.
Qed.

Lemma StronglySorted_drop {A} (R : relation A) n l :
  StronglySorted R l → StronglySorted R (drop n l).
Proof.
  intros H. rewrite <- (take_drop n l) in H. by apply StronglySorted_app_1_r in H.
Qed.

(** ** The accessory filter, for every query *)

(** X6: A query that itself names an accessory (one of the six keywords, in any
    letter case) switches the filter off: the list comes back as it is. *)
Theorem accessory_query_filters_nothing query products :
  names_accessory (Str.toLowerCase query) = true →
  simpleAccessoryFilter query products = products.
Proof.
  intros H. unfold simpleAccessoryFilter.
  assert (isPrimaryQuery query = false) as ->; [|done].
  unfold isPrimaryQuery, names_accessory in *.
  repeat (apply orb_true_iff in H as [H|H]); rewrite H; simpl;
    rewrite ?andb_false_r; done.
Qed.

Lemma accessory_query_filters_nothing_witness :
  simpleAccessoryFilter "iPhone 15 Case" [Sample.mouse_cable; Sample.mouse] =
    [Sample.mouse_cable; Sample.mouse].
Proof.
  apply (accessory_query_filters_nothing "iPhone 15 Case"). reflexivity.
Defined.

(** X7: For every query the filter only removes: its result is a subsequence
    of the input; it keeps every product that is priced at 1000 or more
    (or whose price does not compare below 1000) and every product whose
    title holds no keyword; and filtering twice is filtering once. *)
Theorem simpleAccessoryFilter_conservative query products :
  sublist (simpleAccessoryFilter query products) products ∧
  Forall (λ p, (price p <? JS.of_Z 1000)%js = false ∨
               names_accessory (Str.toLowerCase (title p)) = false →
               p ∈ simpleAccessoryFilter query products) products ∧
  simpleAccessoryFilter query (simpleAccessoryFilter query products) =
    simpleAccessoryFilter query products.
Proof.
  unfold simpleAccessoryFilter. destruct (negb (isPrimaryQuery query)).
  - split; [done|]. split; [|done]. by apply Forall_forall.
  - split; [apply filter_sublist|]. split; [|apply filter_idem].
    apply Forall_forall. intros p Hp Hkeep.
    apply list_elem_of_In, filter_In. split; [by apply list_elem_of_In|].
    unfold keeps. destruct Hkeep as [-> | ->]; [by rewrite andb_false_r|done].
Qed.

Lemma simpleAccessoryFilter_StronglySorted query l :
  StronglySorted (before by_price) (simpleAccessoryFilter query (sort by_price l)).
Proof.
  unfold simpleAccessoryFilter. destruct (negb (isPrimaryQuery query)).
  - apply sort_by_price_sorted.
  - apply StronglySorted_filter, sort_by_price_sorted.
Qed.

Lemma simpleAccessoryFilter_subseteq query l p :
  p ∈ simpleAccessoryFilter query l → p ∈ l.
Proof.
  unfold simpleAccessoryFilter. destruct (negb _); [done|].
  intros H. apply list_elem_of_In, filter_In in H as [H _]. by apply list_elem_of_In.
Qed.

(** ** The slice and the splice *)

Lemma drop_top_slice (l : list Product) : drop (length (top_slice l)) l = drop 20 l.
Proof.
  unfold top_slice. rewrite length_take.
  destruct (decide (20 ≤ length l)%nat).
  - f_equal. lia.
  - rewrite !drop_ge by lia. done.
Qed.

Lemma take_top_slice (l : list Product) : take 5 (top_slice l) = take 5 l.
Proof.
  unfold top_slice. destruct (decide (20 ≤ length l)%nat).
  - rewrite take_take. f_equal. lia.
  - by rewrite (take_ge l (20 `min` length l)) by lia.
Qed.

Lemma apply_ranking_full items ranked :
  StronglySorted (before by_price) items →
  length ranked = length (top_slice items) →
  apply_ranking items ranked (length (top_slice items)) = ranked ++ drop 20 items.
Proof.
  intros Hs Hlen. unfold apply_ranking. rewrite <- Hlen.
  rewrite drop_app_length, take_app_length. rewrite Hlen, drop_top_slice.
  f_equal. by apply sort_sorted_id, StronglySorted_Sorted, StronglySorted_drop.
Qed.

Lemma rankProducts_success_length cfg response query productCandidates r :
  rankProducts cfg response query productCandidates = Ok r →
  crsFailed r = false →
  length (rankedProducts r) = length productCandidates ∧ productCandidates ≠ [].
Proof.
  intros Hr Hf.
  destruct (rankProducts_success _ _ _ _ _ Hr Hf)
    as (jsonText & aiScores & ranked & _ & Hmap & ->).
  apply map_throwing_lookup in Hmap as [Hlen _].
  split; [by rewrite sort_length|].
  intros ->. by rewrite rankProducts_empty in Hr; injection Hr as <-.
Qed.

Lemma valid_price p :
  valid p = true →
  JS.or (price p) JS.Infinity = price p ∧ JS.is_nan (price p) = false.
Proof.
  unfold valid. intros H. apply andb_true_iff in H as [H _].
  apply andb_true_iff in H as [H _]. unfold JS.or.
  destruct (price p) as [x| | |]; try done.
  assert (JS.truthy (JS.Num x) = true) as ->; [|done].
  apply positive_nonzero in H. simpl.
  destruct (x ?= JS.zero)%Qc eqn:E; try done. by apply Qceq_alt in E.
Qed.

(** ** The most expensive product of the fallback summary *)

(** X8: The [reduce] of [generateFallbackSummary] returns one of the products,
    and none of them is priced above it (prices that are numbers). *)
Theorem mostExpensive_is_maximal products first :
  Forall (λ p, JS.is_nan (price p) = false) (first :: products) →
  mostExpensive products first ∈ first :: products ∧
  Forall (λ p, (price p >? price (mostExpensive products first))%js = false)
    (first :: products).
Proof.
  unfold mostExpensive, JS.gt. revert first.
  induction products as [|x l IH]; intros first Hnan; simpl.
  - split; [by left|]. constructor; [apply JSFacts.lt_irrefl|done].
  - apply Forall_cons in Hnan as [Hf Hnan]. apply Forall_cons in Hnan as [Hx Hnan].
    destruct (JS.lt (price first) (price x)) eqn:E.
    + destruct (IH x) as [Hin Hall]; [by constructor|].
      apply Forall_cons in Hall as [Hx' Hall].
      split; [by right|].
      constructor; [|by constructor].
      apply JSFacts.lt_negtrans with (price x); [done..|by apply JSFacts.lt_asym].
    + destruct (IH first) as [Hin Hall]; [by constructor|].
      apply Forall_cons in Hall as [Hf' Hall].
      split; [apply elem_of_cons in Hin as [->|Hin]; [by left|by do 2 right]|].
      constructor; [done|]. constructor; [|done].
      by apply JSFacts.lt_negtrans with (price first).
Qed.

Lemma mostExpensive_is_maximal_witness :
  mostExpensive [Sample.mouse_pad; Sample.phone; Sample.mouse] Sample.mouse_pad ∈
    Sample.mouse_pad :: [Sample.mouse_pad; Sample.phone; Sample.mouse] ∧
  Forall (λ p, (price p >?
                price (mostExpensive [Sample.mouse_pad; Sample.phone; Sample.mouse]
                         Sample.mouse_pad))%js = false)
    (Sample.mouse_pad :: [Sample.mouse_pad; Sample.phone; Sample.mouse]).
Proof.
  apply (mostExpensive_is_maximal [Sample.mouse_pad; Sample.phone; Sample.mouse]
           Sample.mouse_pad).
  by repeat constructor.
Defined.

(** ** Deduplication, the merge, the verdict and the orchestrator *)

Section FurtherPipelineFacts.
Variable Number_toString : JS.number → string.
Variable toLocaleString : JS.number → string.

Lemma dedup_from_NoDup_id seen l :
  NoDup (dedup_key Number_toString <$> l) →
  (∀ p, p ∈ l → dedup_key Number_toString p ∉ seen) →
  dedup_from Number_toString seen l = l.
Proof.
  revert seen. induction l as [|q l IH]; simpl; intros seen Hnd Hseen; [done|].
  apply NoDup_cons in Hnd as [Hq Hnd].
  rewrite decide_False by (apply Hseen; by left).
  f_equal. apply IH; [done|]. intros p Hp.
  assert (dedup_key Number_toString p ≠ dedup_key Number_toString q).
  { intros E. apply Hq. rewrite <- E. by apply list_elem_of_fmap_2. }
  assert (dedup_key Number_toString p ∉ seen) by (apply Hseen; by right).
  set_solver.
Qed.

(** X9: Deduplicating a deduplicated list changes nothing. *)
Theorem deduplicateProducts_idempotent products :
  deduplicateProducts Number_toString (deduplicateProducts Number_toString products) =
    deduplicateProducts Number_toString products.
Proof.
  unfold deduplicateProducts. apply dedup_from_NoDup_id.
  - apply dedup_from_NoDup.
  - intros p _. set_solver.
Qed.

Lemma dedup_from_seen seen q l :
  dedup_key Number_toString q ∈ seen →
  dedup_from Number_toString seen (q :: l) = dedup_from Number_toString seen l.
Proof. intros H. simpl. by rewrite decide_True. Qed.

(** A product whose key an earlier product already has might as well not
    be in the list. *)
Lemma later_duplicate_dropped l1 p l2 q l3 :
  dedup_key Number_toString q = dedup_key Number_toString p →
  deduplicateProducts Number_toString (l1 ++ p :: l2 ++ q :: l3) =
    deduplicateProducts Number_toString (l1 ++ p :: l2 ++ l3).
Proof.
  intros Hkey. unfold deduplicateProducts.
  rewrite !(dedup_from_app _ _ l1). f_equal.
  cbn [dedup_from]. destruct (decide _) as [Hin|Hout]; [|f_equal];
    rewrite !(dedup_from_app _ _ l2); f_equal;
    apply dedup_from_seen; rewrite Hkey; set_solver.
Qed.

(** X10: Letter case does not tell two listings apart: a product whose title
    equals an earlier product's title up to case, at the same price, is
    dropped, wherever it stands after it. *)
Theorem duplicates_ignore_case l1 p l2 q l3 :
  Str.toLowerCase (title q) = Str.toLowerCase (title p) →
  price q = price p →
  deduplicateProducts Number_toString (l1 ++ p :: l2 ++ q :: l3) =
    deduplicateProducts Number_toString (l1 ++ p :: l2 ++ l3).
Proof.
  intros Ht Hp. apply later_duplicate_dropped. unfold dedup_key. by rewrite Ht, Hp.
Qed.

(** X11: Only the first 50 characters of a title count: a product whose title
    shares a stem of 50 ASCII characters or more with an earlier product's
    title, at the same price, is dropped, however the two titles go on.
    The stem is taken in ASCII because there a byte of the model is a code
    unit of the code, so that the stem fills the 50 places of the slice in
    both; a stem of 50 bytes in fewer code units would not. *)
Theorem duplicates_ignore_title_tail l1 p l2 q l3 (stem tail_p tail_q : string) :
  Str.is_ascii stem = true →
  (50 ≤ String.length stem)%nat →
  title p = stem +:+ tail_p →
  title q = stem +:+ tail_q →
  price q = price p →
  deduplicateProducts Number_toString (l1 ++ p :: l2 ++ q :: l3) =
    deduplicateProducts Number_toString (l1 ++ p :: l2 ++ l3).
Proof.
  intros _ Hlen Htp Htq Hp. apply later_duplicate_dropped. unfold dedup_key.
  rewrite Htp, Htq, Hp, !toLowerCase_app.
  rewrite !slice0_app by by rewrite toLowerCase_length.
  done.
Qed.

Lemma merged_valid cfg adapters query :
  Forall (λ p, valid p = true) (merge Number_toString cfg adapters query).1.
Proof.
  unfold merge.
  destruct (if USE_SERPAPI cfg then _ else _) as [items sources]. simpl.
  apply Forall_forall. intros p Hp.
  apply dedup_from_elem in Hp as [_ Hp].
  by apply list_elem_of_In, filter_In in Hp as [_ Hp].
Qed.

(** X12: Whatever the adapters return, every product of the merged list has a
    price above [0], a title and a link, and no two of them have the same
    deduplication key. *)
Theorem merged_products_are_valid cfg adapters query :
  let merged := (merge Number_toString cfg adapters query).1 in
  Forall (λ p, (price p >? JS.of_Z 0)%js = true ∧
               Str.truthy (title p) = true ∧ Str.truthy (link p) = true) merged ∧
  NoDup (dedup_key Number_toString <$> merged).
Proof.
  cbv zeta. split.
  - eapply Forall_impl; [apply merged_valid|].
    intros p Hp. unfold valid in Hp.
    apply andb_true_iff in Hp as [Hp Hl]. by apply andb_true_iff in Hp as [Hp Ht].
  - unfold merge.
    destruct (if USE_SERPAPI cfg then _ else _) as [items sources]. simpl.
    apply dedup_from_NoDup.
Qed.

(** X13: A direct scraper that rejects or times out counts exactly as one that
    answers with no product, in the merged list and in the source reports
    alike; a search API that rejects or times out leaves the merged list
    as an empty answer would. *)
Theorem scraper_failure_is_empty_answer cfg adapters query :
  merge Number_toString cfg adapters query =
    merge Number_toString cfg (without_direct_failures adapters) query ∧
  (merge Number_toString cfg adapters query).1 =
    (merge Number_toString cfg (without_serpapi_failure adapters) query).1.
Proof.
  unfold merge, without_direct_failures, without_serpapi_failure. simpl. split.
  - destruct (USE_AMAZON_FLIPKART_DIRECT cfg); [|done].
    unfold collect_direct at 2 4.
    destruct (scrapeAmazon adapters query), (scrapeFlipkart adapters query); done.
  - destruct (if USE_AMAZON_FLIPKART_DIRECT cfg then _ else _) as [items sources].
    destruct (USE_SERPAPI cfg); [|done].
    unfold collect_serpapi.
    destruct (searchGoogleShopping adapters query); simpl; [done|].
    destruct (USE_AMAZON_FLIPKART_DIRECT cfg); simpl; by rewrite app_nil_r.
Qed.

Lemma generateFallbackSummary_truthy products note :
  Str.truthy (generateFallbackSummary Number_toString toLocaleString products note) = true.
Proof.
  unfold generateFallbackSummary. destruct products as [|best rest]; [done|].
  cbv zeta.
  repeat match goal with
  | |- Str.truthy (if ?b then _ else _) = true => destruct b
  | |- Str.truthy (_ +:+ _) = true => apply truthy_app_l
  end; done.
Qed.

(** X14: On each outcome of the text-generation call that gives no usable text
    (no credential, a rejected fetch, an HTTP error, an unreadable body, a
    body without [candidates[0].content], a finish reason SAFETY,
    RECITATION or MAX_TOKENS, no text, a text of white space only)
    [aiVerdict] returns the local fallback summary of the same products
    with the same note. *)
Theorem aiVerdict_falls_back cfg response products note :
  verdict_unavailable cfg response →
  aiVerdict Number_toString toLocaleString cfg response products note =
    generateFallbackSummary Number_toString toLocaleString products note.
Proof.
  intros H. unfold aiVerdict. destruct (gemini_unconfigured cfg) eqn:E; [done|].
  destruct H as [response H| | | | |c Hc|c Hc|c t Hc Ht]; try done.
  - congruence.
  - by rewrite Hc.
  - destruct (blocked_or_cut _); [done|]. by rewrite Hc.
  - destruct (blocked_or_cut _); [done|]. rewrite Hc, Ht.
    by destruct (Str.truthy t).
Qed.

(** X15: [aiVerdict] never returns an empty string: its result is the fallback
    summary, or else it is the trimmed text of a provider answer that came
    with a credential configured and without a blocking finish reason. *)
Theorem aiVerdict_text_or_fallback cfg response products note :
  let verdict := aiVerdict Number_toString toLocaleString cfg response products note in
  Str.truthy verdict = true ∧
  (verdict = generateFallbackSummary Number_toString toLocaleString products note ∨
   ∃ candidate t,
     response = VBody (Some candidate) ∧ text candidate = Some t ∧
     gemini_unconfigured cfg = false ∧
     blocked_or_cut (finishReason candidate) = false ∧
     verdict = Str.trim t).
Proof.
  cbv zeta. unfold aiVerdict.
  pose proof (generateFallbackSummary_truthy products note) as Hfb.
  destruct (gemini_unconfigured cfg) eqn:E; [by split; [|left]|].
  destruct response as [reason|status errorText|reason|[c|]];
    try (by split; [|left]).
  destruct (blocked_or_cut (finishReason c)) eqn:Hb; [by split; [|left]|].
  destruct (text c) as [t|] eqn:Ht; [|by split; [|left]].
  destruct (Str.truthy t) eqn:Htt; [|by split; [|left]].
  destruct (Str.truthy (Str.trim t)) eqn:Htrim; [|by split; [|left]].
  split; [done|]. right. by exists c, t.
Qed.

(** X16: With neither source enabled no adapter is consulted and neither
    provider: the result has no items, no source report, and the message
    that asks to enable a source. *)
Theorem no_source_enabled cfg adapters scoring verdict clock query :
  USE_SERPAPI cfg = false →
  USE_AMAZON_FLIPKART_DIRECT cfg = false →
  getProductResults Number_toString toLocaleString cfg adapters scoring verdict clock query =
    Ok {| items := [];
          summary := "⚠️ No data sources enabled. Enable USE_SERPAPI and/or USE_AMAZON_FLIPKART_DIRECT in .env";
          metadata :=
            {| totalResults := 0%nat; topPrice := None; topStore := None;
               rankedByAI := false; fetchTime := endTime clock - startTime clock;
               directLinks := 0%nat; redirectLinks := 0%nat; sources := [];
               strategy := None |} |}.
Proof.
  intros H1 H2. unfold getProductResults, merge, rank_merged, getSetupMessage.
  by rewrite H1, H2.
Qed.

(** X17: When the scoring of the top slice succeeds, the result is marked
    [rankedByAI], its items are the ranked slice followed by the products
    beyond the twentieth in their ascending price order, unscored, no
    product is lost, and the summary is the verdict on the first five
    ranked products, without a degradation note. *)
Theorem ranking_applied cfg adapters scoring verdict clock query r :
  let sorted := sort by_price (merge Number_toString cfg adapters query).1 in
  rankProducts cfg scoring query (top_slice sorted) = Ok r →
  crsFailed r = false →
  ∃ res,
    getProductResults Number_toString toLocaleString
      cfg adapters scoring verdict clock query = Ok res ∧
    rankedByAI (metadata res) = true ∧
    items res = rankedProducts r ++ drop 20 sorted ∧
    length (items res) = length sorted ∧
    summary res =
      aiVerdict Number_toString toLocaleString cfg verdict (take 5 (rankedProducts r)) "".
Proof.
  intros sorted Hr Hf. subst sorted. unfold getProductResults.
  destruct (merge Number_toString cfg adapters query) as [merged reports].
  simpl in Hr |- *.
  destruct (rankProducts_success_length _ _ _ _ _ Hr Hf) as [Hlen Hne].
  unfold rank_merged.
  destruct (length merged =? 0)%nat eqn:E.
  { apply Nat.eqb_eq, nil_length_inv in E as ->. done. }
  destruct (top_slice (sort by_price merged)) as [|first rest] eqn:Hslice; [done|].
  assert ((0 <? length (rankedProducts r))%nat = true) as Hpos
    by (rewrite Hlen; done).
  eexists. split; [done|]. unfold rank_and_summarise, fallback.
  rewrite Hr. cbn -[Nat.ltb take apply_ranking length aiVerdict].
  rewrite Hf, Hpos. cbn -[Nat.ltb take apply_ranking length aiVerdict].
  rewrite Hpos. rewrite <- Hslice, apply_ranking_full;
    [|apply sort_by_price_sorted|by rewrite Hslice].
  split; [done|]. split; [done|]. split; [|done].
  rewrite length_app, Hlen, <- Hslice, <- drop_top_slice, length_drop.
  unfold top_slice. rewrite length_take. lia.
Qed.

(** The fallback path, in full. *)
Lemma failure_path cfg adapters scoring verdict clock query r :
  let merged := (merge Number_toString cfg adapters query).1 in
  let sorted := sort by_price merged in
  let filtered := simpleAccessoryFilter query sorted in
  merged ≠ [] →
  rankProducts cfg scoring query (top_slice sorted) = Ok r →
  crsFailed r = true →
  ∃ res,
    getProductResults Number_toString toLocaleString
      cfg adapters scoring verdict clock query = Ok res ∧
    items res = filtered ∧
    summary res =
      let verdict_text :=
        aiVerdict Number_toString toLocaleString cfg verdict (take 5 sorted)
          rankNote_failed in
      if (length filtered <? length sorted)%nat
      then filtered_summary Number_toString filtered verdict_text
      else verdict_text.
Proof.
  intros merged sorted filtered Hne Hr Hf. subst filtered sorted merged.
  unfold getProductResults.
  destruct (merge Number_toString cfg adapters query) as [merged reports].
  simpl in *. unfold rank_merged.
  destruct (length merged =? 0)%nat eqn:E.
  { apply Nat.eqb_eq, nil_length_inv in E. done. }
  destruct (top_slice_sorted_nonempty _ Hne) as (first & rest & Hslice).
  rewrite Hslice in Hr |- *.
  eexists. split; [done|].
  unfold rank_and_summarise. rewrite Hr.
  cbn -[Nat.ltb take length aiVerdict sort simpleAccessoryFilter]. rewrite Hf.
  rewrite andb_false_r. unfold fallback.
  cbn -[Nat.ltb take length aiVerdict sort simpleAccessoryFilter].
  assert (take 5 (first :: rest) = take 5 (sort by_price merged)) as ->
    by (rewrite <- Hslice; apply take_top_slice).
  destruct (_ <? _)%nat eqn:Hlt;
    cbn -[Nat.ltb take length aiVerdict sort simpleAccessoryFilter].
  - rewrite simpleAccessoryFilter_sorted_resort. split; [done|].
    unfold filtered_summary. by destruct (simpleAccessoryFilter _ _).
  - done.
Qed.

(** X18: When the scoring of the top slice fails, the items of the result are
    in ascending order of price, and each of them is a product of the
    merged list, as it was merged. *)
Theorem fallback_items_ascend cfg adapters scoring verdict clock query r :
  let merged := (merge Number_toString cfg adapters query).1 in
  rankProducts cfg scoring query (top_slice (sort by_price merged)) = Ok r →
  crsFailed r = true →
  ∃ res,
    getProductResults Number_toString toLocaleString
      cfg adapters scoring verdict clock query = Ok res ∧
    StronglySorted (λ a b, (price a <=? price b)%js = true) (items res) ∧
    Forall (λ p, p ∈ merged) (items res).
Proof.
  intros merged Hr Hf.
  destruct (decide (merged = [])) as [Hnil|Hne].
  { subst merged. unfold getProductResults.
    destruct (merge Number_toString cfg adapters query) as [m reports]. simpl in Hnil.
    subst m. eexists. split; [done|]. split; constructor. }
  destruct (failure_path cfg adapters scoring verdict clock query r Hne Hr Hf)
    as (res & Hres & Hitems & _).
  exists res. split; [done|]. rewrite Hitems.
  assert (∀ p, p ∈ simpleAccessoryFilter query (sort by_price merged) → p ∈ merged) as Hsub.
  { intros p Hp%simpleAccessoryFilter_subseteq. by rewrite sort_perm in Hp. }
  split; [|by apply Forall_forall].
  pose proof (merged_valid cfg adapters query) as Hvalid. fold merged in Hvalid.
  rewrite Forall_forall in Hvalid.
  apply (StronglySorted_impl (before by_price) _ (λ p, valid p = true)).
  - intros a b Ha Hb Hab. unfold before in Hab. rewrite after_by_price in Hab.
    apply valid_price in Ha as [Ha Ha'], Hb as [Hb Hb']. rewrite Ha, Hb in Hab.
    by apply JSFacts.le_iff.
  - apply Forall_forall. intros p Hp. by apply Hvalid, Hsub.
  - apply simpleAccessoryFilter_StronglySorted.
Qed.

(** X19: When the scoring of the top slice fails, the summary is the verdict on
    the five cheapest merged products with the degradation note, unless
    the accessory filter removed a product and left one: then it is the
    line that names the count, price and store of the cheapest remaining
    product.  If the filter removed every product, the verdict on the
    removed products stays. *)
Theorem fallback_summary cfg adapters scoring verdict clock query r :
  let merged := (merge Number_toString cfg adapters query).1 in
  let sorted := sort by_price merged in
  let filtered := simpleAccessoryFilter query sorted in
  merged ≠ [] →
  rankProducts cfg scoring query (top_slice sorted) = Ok r →
  crsFailed r = true →
  ∃ res,
    getProductResults Number_toString toLocaleString
      cfg adapters scoring verdict clock query = Ok res ∧
    summary res =
      let verdict_text :=
        aiVerdict Number_toString toLocaleString cfg verdict (take 5 sorted)
          rankNote_failed in
      if (length filtered <? length sorted)%nat
      then filtered_summary Number_toString filtered verdict_text
      else verdict_text.
Proof.
  intros merged sorted filtered Hne Hr Hf.
  destruct (failure_path cfg adapters scoring verdict clock query r Hne Hr Hf)
    as (res & Hres & _ & Hsummary).
  by exists res.
Qed.

(** X20: [getProductResults] always returns, and in what it returns
    [totalResults], [topPrice] and [topStore] describe the returned items,
    [sources] is the report of the merge, while the two link counts add up
    to the size of the merged list, counted before any filter. *)
Theorem result_shape cfg adapters scoring verdict clock query :
  ∃ res,
    getProductResults Number_toString toLocaleString
      cfg adapters scoring verdict clock query = Ok res ∧
    totalResults (metadata res) = length (items res) ∧
    topPrice (metadata res) = price <$> head (items res) ∧
    topStore (metadata res) = store <$> head (items res) ∧
    fetchTime (metadata res) = endTime clock - startTime clock ∧
    sources (metadata res) = (merge Number_toString cfg adapters query).2 ∧
    (directLinks (metadata res) + redirectLinks (metadata res))%nat =
      length (merge Number_toString cfg adapters query).1.
Proof.
  unfold getProductResults.
  destruct (merge Number_toString cfg adapters query) as [merged reports].
  unfold rank_merged. destruct (length merged =? 0)%nat eqn:E.
  - apply Nat.eqb_eq in E. eexists. split; [done|]. simpl. by rewrite E.
  - assert (merged ≠ []) as Hne by (intros ->; done).
    destruct (top_slice_sorted_nonempty _ Hne) as (first & rest & ->).
    eexists. split; [done|]. cbn [metadata items totalResults topPrice topStore fetchTime
      sources directLinks redirectLinks fst snd].
    repeat split.
    pose proof (filter_length is_direct_link merged). lia.
Qed.
End FurtherPipelineFacts.

Lemma duplicates_ignore_case_witness :
  deduplicateProducts Sample.show
    ([] ++ Sample.listing "Wireless Mouse" (JS.of_Z 25) ::
     [Sample.phone] ++ Sample.listing "WIRELESS mouse" (JS.of_Z 25) :: []) =
  deduplicateProducts Sample.show
    ([] ++ Sample.listing "Wireless Mouse" (JS.of_Z 25) :: [Sample.phone] ++ []).
Proof.
  apply (duplicates_ignore_case Sample.show []
           (Sample.listing "Wireless Mouse" (JS.of_Z 25)) [Sample.phone]
           (Sample.listing "WIRELESS mouse" (JS.of_Z 25)) []);
    reflexivity.
Defined.

Lemma duplicates_ignore_title_tail_witness :
  deduplicateProducts Sample.show
    ([] ++ Sample.listing
             "Logitech M185 Wireless Mouse, 2.4GHz with USB Mini Receiver, Grey"
             (JS.of_Z 25) ::
     [] ++ Sample.listing
             "Logitech M185 Wireless Mouse, 2.4GHz with USB Mini Receiver, Blue"
             (JS.of_Z 25) :: []) =
  deduplicateProducts Sample.show
    ([] ++ Sample.listing
             "Logitech M185 Wireless Mouse, 2.4GHz with USB Mini Receiver, Grey"
             (JS.of_Z 25) :: [] ++ []).
Proof.
  apply (duplicates_ignore_title_tail Sample.show [] _ [] _ []
           "Logitech M185 Wireless Mouse, 2.4GHz with USB Mini Receiver, "
           "Grey" "Blue");
    [reflexivity|vm_compute; lia|reflexivity..].
Defined.

Lemma aiVerdict_falls_back_witness :
  aiVerdict Sample.show Sample.show Sample.configured
    (VBody (Some {| finishReason := Some "MAX_TOKENS"; text := Some "The best" |}))
    [Sample.mouse; Sample.phone] rankNote_failed =
  generateFallbackSummary Sample.show Sample.show [Sample.mouse; Sample.phone]
    rankNote_failed.
Proof.
  apply (aiVerdict_falls_back Sample.show Sample.show Sample.configured).
  by apply verdict_blocked.
Defined.

Lemma no_source_enabled_witness :
  getProductResults Sample.show Sample.show
    {| GEMINI_API_KEY := None; SERPAPI_KEY := None;
       USE_SERPAPI := false; USE_AMAZON_FLIPKART_DIRECT := false |}
    Sample.adapters Sample.healthy Sample.no_verdict Sample.clock "wireless mouse" =
  Ok {| items := [];
        summary := "⚠️ No data sources enabled. Enable USE_SERPAPI and/or USE_AMAZON_FLIPKART_DIRECT in .env";
        metadata :=
          {| totalResults := 0%nat; topPrice := None; topStore := None;
             rankedByAI := false; fetchTime := 850;
             directLinks := 0%nat; redirectLinks := 0%nat; sources := [];
             strategy := None |} |}.
Proof.
  apply (no_source_enabled Sample.show Sample.show
           {| GEMINI_API_KEY := None; SERPAPI_KEY := None;
              USE_SERPAPI := false; USE_AMAZON_FLIPKART_DIRECT := false |}
           Sample.adapters Sample.healthy Sample.no_verdict Sample.clock);
    reflexivity.
Defined.

Lemma ranking_applied_witness :
  ∃ r res,
    rankProducts Sample.configured Sample.healthy "wireless mouse"
      (top_slice
         (sort by_price
            (merge Sample.show Sample.configured Sample.adapters "wireless mouse").1)) =
      Ok r ∧
    getProductResults Sample.show Sample.show Sample.configured Sample.adapters
      Sample.healthy Sample.no_verdict Sample.clock "wireless mouse" = Ok res ∧
    rankedByAI (metadata res) = true ∧
    items res =
      rankedProducts r ++
      drop 20
        (sort by_price
           (merge Sample.show Sample.configured Sample.adapters "wireless mouse").1) ∧
    length (items res) =
      length
        (sort by_price
           (merge Sample.show Sample.configured Sample.adapters "wireless mouse").1) ∧
    summary res =
      aiVerdict Sample.show Sample.show Sample.configured Sample.no_verdict
        (take 5 (rankedProducts r)) "".
Proof.
  assert (∃ r,
            rankProducts Sample.configured Sample.healthy "wireless mouse"
              (top_slice
                 (sort by_price
                    (merge Sample.show Sample.configured Sample.adapters
                       "wireless mouse").1)) = Ok r ∧
            crsFailed r = false) as (r & Hr & Hf)
    by (vm_compute; eexists; split; reflexivity).
  destruct (ranking_applied Sample.show Sample.show Sample.configured Sample.adapters
              Sample.healthy Sample.no_verdict Sample.clock "wireless mouse" r Hr Hf)
    as (res & Hres).
  by exists r, res.
Defined.

Lemma fallback_items_ascend_witness :
  ∃ res,
    getProductResults Sample.show Sample.show Sample.configured Sample.adapters
      (HttpError 503 "Service Unavailable") Sample.no_verdict Sample.clock
      "wireless mouse" = Ok res ∧
    StronglySorted (λ a b, (price a <=? price b)%js = true) (items res) ∧
    Forall (λ p, p ∈ (merge Sample.show Sample.configured Sample.adapters
                        "wireless mouse").1) (items res).
Proof.
  assert (∃ r,
            rankProducts Sample.configured (HttpError 503 "Service Unavailable")
              "wireless mouse"
              (top_slice
                 (sort by_price
                    (merge Sample.show Sample.configured Sample.adapters
                       "wireless mouse").1)) = Ok r ∧
            crsFailed r = true) as (r & Hr & Hf)
    by (vm_compute; eexists; split; reflexivity).
  exact (fallback_items_ascend Sample.show Sample.show Sample.configured Sample.adapters
           (HttpError 503 "Service Unavailable") Sample.no_verdict Sample.clock
           "wireless mouse" r Hr Hf).
Defined.

Lemma fallback_summary_witness :
  ∃ res,
    getProductResults Sample.show Sample.show Sample.configured Sample.adapters
      (HttpError 503 "Service Unavailable") Sample.no_verdict Sample.clock
      "wireless mouse" = Ok res ∧
    summary res =
      "Found 1 products! Best deal: ₹25/1 from Amazon. (Note: AI ranking unavailable. Cheap accessories filtered out.)".
Proof.
  assert (∃ r,
            rankProducts Sample.configured (HttpError 503 "Service Unavailable")
              "wireless mouse"
              (top_slice
                 (sort by_price
                    (merge Sample.show Sample.configured Sample.adapters
                       "wireless mouse").1)) = Ok r ∧
            crsFailed r = true) as (r & Hr & Hf)
    by (vm_compute; eexists; split; reflexivity).
  destruct (fallback_summary Sample.show Sample.show Sample.configured Sample.adapters
              (HttpError 503 "Service Unavailable") Sample.no_verdict Sample.clock
              "wireless mouse" r ltac:(by vm_compute) Hr Hf) as (res & Hres & Hsummary).
  exists res. split; [done|]. rewrite Hsummary. by vm_compute.
Defined.

(** ** The cart *)

Section CartFacts.
Import Cart.

Lemma find_map_stable {A} (P : A → bool) (f : A → A) l :
  (∀ x, P (f x) = P x) →
  List.find P (map f l) = f <$> List.find P l.
Proof.
  intros HP. induction l as [|x l IH]; simpl; [done|].
  rewrite HP. by destruct (P x).
Qed.

Lemma find_snoc {A} (P : A → bool) l x :
  List.find P (l ++ [x]) =
    match List.find P l with
    | Some y => Some y
    | None => if P x then Some x else None
    end.
Proof.
  induction l as [|y l IH]; simpl; [done|]. by destruct (P y).
Qed.

Lemma NoDup_fmap_eq {A B} (f : A → B) l x y :
  NoDup (f <$> l) → x ∈ l → y ∈ l → f x = f y → x = y.
Proof.
  induction l as [|a l IH]; simpl; intros Hnd Hx Hy E; [by apply elem_of_nil in Hx|].
  apply NoDup_cons in Hnd as [Ha Hnd].
  apply elem_of_cons in Hx as [->|Hx], Hy as [->|Hy]; [done| | |by apply IH].
  - exfalso. apply Ha. rewrite E. by apply list_elem_of_fmap_2.
  - exfalso. apply Ha. rewrite <- E. by apply list_elem_of_fmap_2.
Qed.

Lemma first_by_user_spec db subject d :
  first_by_user db subject = Some d → d ∈ db ∧ userId d = subject.
Proof.
  unfold first_by_user. intros H. apply find_some in H as [Hin E].
  split; [by apply list_elem_of_In|by apply String.eqb_eq].
Qed.

Lemma first_by_user_patch db id newItems now subject :
  first_by_user (patch db id newItems now) subject =
    (λ d, if (_id d =? id)%nat
          then {| _id := _id d; userId := userId d; items := newItems; updatedAt := now |}
          else d) <$> first_by_user db subject.
Proof.
  unfold first_by_user, patch. apply find_map_stable.
  intros d. by destruct (_id d =? id)%nat.
Qed.

Lemma patch_userIds db id newItems now :
  userId <$> patch db id newItems now = userId <$> db.
Proof.
  unfold patch. induction db as [|d db IH]; [done|].
  cbn in *. f_equal; [by destruct (_id d =? id)%nat|done].
Qed.

Lemma patch_ids db id newItems now : _id <$> patch db id newItems now = _id <$> db.
Proof.
  unfold patch. induction db as [|d db IH]; [done|].
  cbn in *. f_equal; [by destruct (_id d =? id)%nat|done].
Qed.

Lemma fresh_id_fresh db : fresh_id db ∉ _id <$> db.
Proof.
  unfold fresh_id. intros H. apply max_list_elem_of_le in H. lia.
Qed.

Lemma first_by_user_None db subject :
  first_by_user db subject = None → subject ∉ userId <$> db.
Proof.
  unfold first_by_user. intros H (d & -> & Hd)%list_elem_of_fmap.
  apply list_elem_of_In in Hd.
  apply (find_none _ _ H) in Hd. by rewrite String.eqb_refl in Hd.
Qed.

Lemma patch_well_formed db id newItems now :
  well_formed db → well_formed (patch db id newItems now).
Proof. unfold well_formed. by rewrite patch_userIds, patch_ids. Qed.

Lemma insert_well_formed db subject newItems now :
  first_by_user db subject = None →
  well_formed db → well_formed (insert db subject newItems now).
Proof.
  intros Hnone [Hu Hi]. unfold well_formed, insert. rewrite !fmap_app. simpl.
  split; apply NoDup_app; (split; [done|]); split;
    try (apply NoDup_singleton).
  - intros u Hu' ->%list_elem_of_singleton. by apply first_by_user_None in Hnone.
  - intros i Hi' ->%list_elem_of_singleton. by apply fresh_id_fresh in Hi'.
Qed.

Lemma delete_well_formed db id : well_formed db → well_formed (delete db id).
Proof.
  intros [Hu Hi]. unfold well_formed, delete.
  split.
  - apply (sublist_NoDup _ (userId <$> db)); [done|]. apply fmap_sublist, filter_sublist.
  - apply (sublist_NoDup _ (_id <$> db)); [done|]. apply fmap_sublist, filter_sublist.
Qed.

Lemma run_well_formed m identity now db db' :
  well_formed db → run m identity now db = Ok db' → well_formed db'.
Proof.
  intros Hwf. destruct m, identity as [subject|]; simpl; try done;
    destruct (first_by_user db subject) as [cart|] eqn:E; intros [= <-];
    auto using patch_well_formed, insert_well_formed, delete_well_formed.
Qed.

Lemma find_None_intro {A} (P : A → bool) l :
  (∀ x, x ∈ l → P x = false) → List.find P l = None.
Proof.
  induction l as [|x l IH]; simpl; intros H; [done|].
  rewrite (H x) by left. apply IH. intros y Hy. apply H. by right.
Qed.

Lemma find_filter_stable {A} (P Q : A → bool) l :
  (∀ x, x ∈ l → P x = true → Q x = true) →
  List.find P (List.filter Q l) = List.find P l.
Proof.
  induction l as [|x l IH]; simpl; intros H; [done|].
  assert (List.find P (List.filter Q l) = List.find P l) as IH'.
  { apply IH. intros y Hy. apply H. by right. }
  destruct (P x) eqn:EP.
  - rewrite (H x) by (done || left). simpl. by rewrite EP.
  - destruct (Q x); simpl; by rewrite ?EP.
Qed.

Lemma other_user_other_id db cart d :
  NoDup (_id <$> db) → cart ∈ db → d ∈ db → userId d ≠ userId cart →
  (_id d =? _id cart)%nat = false.
Proof.
  intros Hnd Hc Hd Hne. apply Nat.eqb_neq. intros E. apply Hne.
  by rewrite (NoDup_fmap_eq _id db d cart).
Qed.

Lemma getCart_patch_other db cart subject subject' newItems now :
  NoDup (_id <$> db) → first_by_user db subject = Some cart → subject ≠ subject' →
  first_by_user (patch db (_id cart) newItems now) subject' = first_by_user db subject'.
Proof.
  intros Hnd [Hc Hu]%first_by_user_spec Hne. rewrite first_by_user_patch.
  destruct (first_by_user db subject') as [d|] eqn:E; [|done].
  apply first_by_user_spec in E as [Hd Hu']. simpl.
  rewrite (other_user_other_id db cart d) by (done || congruence). done.
Qed.

Lemma getCart_insert_other db subject subject' newItems now :
  subject ≠ subject' →
  first_by_user (insert db subject newItems now) subject' = first_by_user db subject'.
Proof.
  intros Hne. unfold first_by_user, insert. rewrite find_snoc. simpl.
  destruct (List.find _ db); [done|].
  by apply String.eqb_neq in Hne as ->.
Qed.

Lemma getCart_delete_other db cart subject subject' :
  NoDup (_id <$> db) → first_by_user db subject = Some cart → subject ≠ subject' →
  first_by_user (delete db (_id cart)) subject' = first_by_user db subject'.
Proof.
  intros Hnd [Hc Hu]%first_by_user_spec Hne. unfold first_by_user, delete.
  apply find_filter_stable. intros d Hd E%String.eqb_eq.
  rewrite (other_user_other_id db cart d) by (done || congruence). done.
Qed.

Lemma first_by_user_patch_own db cart subject newItems now :
  first_by_user db subject = Some cart →
  first_by_user (patch db (_id cart) newItems now) subject =
    Some {| _id := _id cart; userId := subject; items := newItems; updatedAt := now |}.
Proof.
  intros E. rewrite first_by_user_patch, E. simpl. rewrite Nat.eqb_refl.
  by apply first_by_user_spec in E as [_ ->].
Qed.

Lemma first_by_user_insert_own db subject newItems now :
  first_by_user db subject = None →
  first_by_user (insert db subject newItems now) subject =
    Some {| _id := fresh_id db; userId := subject; items := newItems; updatedAt := now |}.
Proof.
  intros E. unfold first_by_user, insert in *. rewrite find_snoc, E. simpl.
  by rewrite String.eqb_refl.
Qed.

Lemma items_of_patch db cart subject newItems now :
  first_by_user db subject = Some cart →
  items_of subject (patch db (_id cart) newItems now) = newItems.
Proof. intros E. unfold items_of. by rewrite (first_by_user_patch_own _ _ _ _ _ E). Qed.

Lemma items_of_insert db subject newItems now :
  first_by_user db subject = None →
  items_of subject (insert db subject newItems now) = newItems.
Proof. intros E. unfold items_of. by rewrite (first_by_user_insert_own _ _ _ _ E). Qed.

Lemma addItem_items subject now args db :
  ∃ db', addItem (Some subject) now args db = Ok db' ∧
         items_of subject db' = add_to (items_of subject db) args.
Proof.
  unfold addItem, items_of at 2.
  destruct (first_by_user db subject) as [cart|] eqn:E; eexists; (split; [done|]).
  - by apply items_of_patch.
  - rewrite items_of_insert by done. unfold add_to. simpl. done.
Qed.

Lemma removeItem_items subject now pid db :
  ∃ db', removeItem (Some subject) now pid db = Ok db' ∧
         items_of subject db' =
           List.filter (λ item, negb (String.eqb (productId item) pid))
             (items_of subject db).
Proof.
  unfold removeItem, items_of at 2.
  destruct (first_by_user db subject) as [cart|] eqn:E; eexists; (split; [done|]).
  - by apply items_of_patch.
  - unfold items_of. by rewrite E.
Qed.

Lemma quantity_of_add_to_same cart_items args :
  quantity_of (productId args) (add_to cart_items args) =
    Some match quantity_of (productId args) cart_items with
         | Some q => (q + quantity args)%js
         | None => quantity args
         end.
Proof.
  unfold quantity_of, add_to.
  destruct (List.find _ cart_items) as [existingItem|] eqn:E.
  - rewrite find_map_stable, E.
    + simpl. apply find_some in E as [_ ->]. done.
    + intros x. by destruct (String.eqb (productId x) (productId args)) eqn:Ex.
  - rewrite find_snoc, E. by rewrite String.eqb_refl.
Qed.

Lemma quantity_of_add_to_other cart_items args pid :
  pid ≠ productId args →
  quantity_of pid (add_to cart_items args) = quantity_of pid cart_items.
Proof.
  intros Hne. unfold quantity_of, add_to.
  destruct (List.find (λ item, String.eqb (productId item) (productId args)) cart_items)
    as [existingItem|] eqn:E.
  - rewrite find_map_stable.
    + destruct (List.find (λ item, String.eqb (productId item) pid) cart_items)
        as [x|] eqn:Ex; [|done].
      apply find_some in Ex as [_ Ex%String.eqb_eq].
      assert (String.eqb (productId x) (productId args) = false) as Hx.
      { apply String.eqb_neq. congruence. }
      simpl. by rewrite Hx.
    + intros x. by destruct (String.eqb (productId x) (productId args)) eqn:Ex.
  - rewrite find_snoc.
    destruct (List.find (λ item, String.eqb (productId item) pid) cart_items); [done|].
    assert (String.eqb (productId args) pid = false) as ->; [|done].
    apply String.eqb_neq. congruence.
Qed.

Lemma add_to_productIds cart_items args :
  productId <$> add_to cart_items args =
    match quantity_of (productId args) cart_items with
    | Some _ => productId <$> cart_items
    | None => (productId <$> cart_items) ++ [productId args]
    end.
Proof.
  unfold quantity_of, add_to. destruct (List.find _ cart_items); simpl.
  - induction cart_items as [|x l IH]; [done|]. cbn in *. f_equal; [|done].
    by destruct (String.eqb (productId x) (productId args)).
  - by rewrite fmap_app.
Qed.

Lemma quantity_of_None pid cart_items :
  quantity_of pid cart_items = None ↔ pid ∉ productId <$> cart_items.
Proof.
  unfold quantity_of. split.
  - intros H (x & -> & Hx)%list_elem_of_fmap.
    destruct (List.find _ cart_items) eqn:E; [done|].
    apply list_elem_of_In in Hx. apply (find_none _ _ E) in Hx.
    by rewrite String.eqb_refl in Hx.
  - intros H. rewrite find_None_intro; [done|].
    intros x Hx. apply String.eqb_neq. intros <-. apply H.
    by apply list_elem_of_fmap_2.
Qed.

Lemma filter_all {A} (P : A → bool) l :
  (∀ x, x ∈ l → P x = true) → List.filter P l = l.
Proof.
  induction l as [|x l IH]; simpl; intros H; [done|].
  rewrite (H x) by left. f_equal. apply IH. intros y Hy. apply H. by right.
Qed.

Lemma remove_added cart_items args :
  quantity_of (productId args) cart_items = None →
  List.filter (λ item, negb (String.eqb (productId item) (productId args)))
    (add_to cart_items args) = cart_items.
Proof.
  intros H. unfold add_to. unfold quantity_of in H.
  destruct (List.find _ cart_items) eqn:E; [done|].
  rewrite List.filter_app. simpl. rewrite String.eqb_refl. simpl.
  rewrite app_nil_r. apply filter_all. intros x Hx%list_elem_of_In.
  by rewrite (find_none _ _ E x Hx).
Qed.

(** X21: every table the mutations
    build from the empty table holds at most one cart per user, and no two
    documents share an id. *)
Theorem cart_table_invariant db : reachable db → well_formed db.
Proof.
  induction 1 as [|db m identity now db' _ IH Hrun].
  - split; constructor.
  - by eapply run_well_formed.
Qed.

(** X22: on a table with one
    document per id, a mutation of one user leaves what [getCart] returns
    to every other user as it was. *)
Theorem mutations_are_isolated m subject subject' now db db' :
  well_formed db → subject ≠ subject' →
  run m (Some subject) now db = Ok db' →
  getCart (Some subject') db' = getCart (Some subject') db.
Proof.
  intros [_ Hnd] Hne. simpl.
  destruct m; simpl; destruct (first_by_user db subject) as [cart|] eqn:E;
    intros [= <-];
    eauto using getCart_patch_other, getCart_insert_other, getCart_delete_other.
Qed.

(** X23: [updateCart] by a
    signed-in user always returns, and [getCart] then gives that user a
    cart with exactly the items passed and the time of the update, whether
    or not the user had a cart. *)
Theorem updateCart_then_getCart subject now args_items db :
  ∃ db' cart,
    updateCart (Some subject) now args_items db = Ok db' ∧
    getCart (Some subject) db' = Some cart ∧
    userId cart = subject ∧ items cart = args_items ∧ updatedAt cart = now.
Proof.
  unfold updateCart, getCart.
  destruct (first_by_user db subject) as [existing|] eqn:E; do 2 eexists;
    (split; [done|]).
  - by rewrite (first_by_user_patch_own _ _ _ _ _ E).
  - by rewrite (first_by_user_insert_own _ _ _ _ E).
Qed.

(** X24: [addItem] by a signed-in user
    always returns; afterwards the cart holds the product with the added
    quantity on top of what it held (the quantity alone if it held none),
    and the quantity of every other product is as before. *)
Theorem addItem_accumulates subject now args db :
  ∃ db',
    addItem (Some subject) now args db = Ok db' ∧
    quantity_of (productId args) (items_of subject db') =
      Some match quantity_of (productId args) (items_of subject db) with
           | Some q => (q + quantity args)%js
           | None => quantity args
           end ∧
    ∀ pid, pid ≠ productId args →
      quantity_of pid (items_of subject db') = quantity_of pid (items_of subject db).
Proof.
  destruct (addItem_items subject now args db) as (db' & Hrun & E).
  exists db'. rewrite E. split; [done|]. split.
  - apply quantity_of_add_to_same.
  - intros pid. apply quantity_of_add_to_other.
Qed.

(** X25: a cart that lists no product
    twice still lists none twice after [addItem]. *)
Theorem addItem_keeps_products_distinct subject now args db db' :
  NoDup (productId <$> items_of subject db) →
  addItem (Some subject) now args db = Ok db' →
  NoDup (productId <$> items_of subject db').
Proof.
  intros Hnd Hrun.
  destruct (addItem_items subject now args db) as (db'' & Hrun' & E).
  rewrite Hrun in Hrun'. injection Hrun' as Hdb. subst db''.
  rewrite E, add_to_productIds.
  destruct (quantity_of _ _) eqn:Eq; [done|].
  apply NoDup_app. split; [done|]. split; [|apply NoDup_singleton].
  intros pid Hpid ->%list_elem_of_singleton. by apply quantity_of_None in Eq.
Qed.

(** X26: [removeItem] by a signed-in
    user always returns; afterwards the cart does not hold the product,
    the quantities of the other products are as before, and the items left
    are the earlier ones in their order. *)
Theorem removeItem_removes subject now args_productId db :
  ∃ db',
    removeItem (Some subject) now args_productId db = Ok db' ∧
    quantity_of args_productId (items_of subject db') = None ∧
    items_of subject db' `sublist_of` items_of subject db ∧
    ∀ pid, pid ≠ args_productId →
      quantity_of pid (items_of subject db') = quantity_of pid (items_of subject db).
Proof.
  destruct (removeItem_items subject now args_productId db) as (db' & Hrun & E).
  exists db'. rewrite E. split; [done|]. split; [|split].
  - unfold quantity_of. rewrite find_None_intro; [done|].
    intros x Hx%list_elem_of_In. apply filter_In in Hx as [_ Hx].
    by apply negb_true_iff in Hx.
  - apply filter_sublist.
  - intros pid Hne. unfold quantity_of. f_equal. apply find_filter_stable.
    intros x _ Hx%String.eqb_eq. apply negb_true_iff, String.eqb_neq. congruence.
Qed.

(** X27: adding a product
    the cart does not hold and removing it again gives the items back as
    they were. *)
Theorem removeItem_undoes_addItem subject now now' args db :
  quantity_of (productId args) (items_of subject db) = None →
  ∃ db1 db2,
    addItem (Some subject) now args db = Ok db1 ∧
    removeItem (Some subject) now' (productId args) db1 = Ok db2 ∧
    items_of subject db2 = items_of subject db.
Proof.
  intros Hnone.
  destruct (addItem_items subject now args db) as (db1 & Hadd & E1).
  destruct (removeItem_items subject now' (productId args) db1) as (db2 & Hrem & E2).
  exists db1, db2. split; [done|]. split; [done|].
  rewrite E2, E1. by apply remove_added.
Qed.

(** X28: on a table with one
    cart per user, [clearCart] by a signed-in user returns and [getCart]
    then gives that user no cart. *)
Theorem clearCart_then_getCart subject db :
  well_formed db →
  ∃ db', clearCart (Some subject) db = Ok db' ∧ getCart (Some subject) db' = None.
Proof.
  intros [Hnd _]. unfold clearCart, getCart.
  destruct (first_by_user db subject) as [cart|] eqn:E; eexists; (split; [done|]);
    [|done].
  pose proof E as [Hc Hu]%first_by_user_spec.
  unfold first_by_user, delete. apply find_None_intro.
  intros d Hd%list_elem_of_In. apply filter_In in Hd as [Hd Hid].
  apply list_elem_of_In in Hd.
  apply String.eqb_neq. intros Hu'.
  assert (d = cart) as -> by (apply (NoDup_fmap_eq userId db); congruence).
  by rewrite Nat.eqb_refl in Hid.
Qed.

Lemma CartSample_table_well_formed : well_formed CartSample.table.
Proof. split; apply (bool_decide_unpack _); vm_compute; reflexivity. Qed.

Lemma cart_table_invariant_witness :
  reachable CartSample.table ∧ well_formed CartSample.table.
Proof.
  assert (reachable CartSample.table) as H.
  { apply (reachable_step (take 1 CartSample.table)
             (AddItem CartSample.ink) (Some "bob") 20); [|reflexivity].
    apply (reachable_step [] (AddItem CartSample.pen) (Some "alice") 10);
      [constructor|reflexivity]. }
  split; [exact H|exact (cart_table_invariant _ H)].
Defined.

Lemma mutations_are_isolated_witness :
  ∃ db', run ClearCart (Some "alice") 30 CartSample.table = Ok db' ∧
         getCart (Some "bob") db' = getCart (Some "bob") CartSample.table.
Proof.
  eexists. split; [reflexivity|].
  apply (mutations_are_isolated ClearCart "alice" "bob" 30 CartSample.table);
    [apply CartSample_table_well_formed|discriminate|reflexivity].
Defined.

Lemma addItem_keeps_products_distinct_witness :
  ∃ db', addItem (Some "alice") 30 CartSample.ink CartSample.table = Ok db' ∧
         NoDup (productId <$> items_of "alice" db').
Proof.
  eexists. split; [reflexivity|].
  apply (addItem_keeps_products_distinct "alice" 30 CartSample.ink CartSample.table);
    [|reflexivity].
  apply (bool_decide_unpack _). vm_compute. reflexivity.
Defined.

Lemma removeItem_undoes_addItem_witness :
  quantity_of "p2" (items_of "alice" CartSample.table) = None ∧
  ∃ db1 db2,
    addItem (Some "alice") 30 CartSample.ink CartSample.table = Ok db1 ∧
    removeItem (Some "alice") 40 "p2" db1 = Ok db2 ∧
    items_of "alice" db2 = items_of "alice" CartSample.table.
Proof.
  split; [reflexivity|].
  apply (removeItem_undoes_addItem "alice" 30 40 CartSample.ink CartSample.table).
  reflexivity.
Defined.

Lemma clearCart_then_getCart_witness :
  well_formed CartSample.table ∧
  ∃ db', clearCart (Some "alice") CartSample.table = Ok db' ∧
         getCart (Some "alice") db' = None.
Proof.
  split; [apply CartSample_table_well_formed|].
  apply (clearCart_then_getCart "alice" CartSample.table).
  apply CartSample_table_well_formed.
Defined.

End CartFacts.

(** * The heap: one run does not reach into the next *)

Section ImperativeFacts.
Variable Number_toString : JS.number → string.
Variable toLocaleString : JS.number → string.

Ltac run :=
  unfold mbind, Imperative.M_bind, mret, Imperative.M_ret, Imperative.lift,
    Imperative.throw, Imperative.try_catch;
  cbv beta iota.

Lemma bind_run {A B} (m : Imperative.M A) (f : A → Imperative.M B) h a h' :
  m h = (Ok a, h') → (m ≫= f) h = f a h'.
Proof. intros H. unfold mbind, Imperative.M_bind. by rewrite H. Qed.

Lemma new_array_run elements h :
  ∃ r, h !! r = None ∧ Imperative.new_array elements h = (Ok r, <[r := elements]> h).
Proof.
  exists (fresh (dom h)). split; [|done].
  apply not_elem_of_dom, is_fresh.
Qed.

Lemma get_run a l h : h !! a = Some l → Imperative.get a h = (Ok l, h).
Proof. intros H. unfold Imperative.get. by rewrite H. Qed.

Lemma set_run a l h : Imperative.set a l h = (Ok (), <[a := l]> h).
Proof. done. Qed.

Lemma push_run a l elements h :
  h !! a = Some l → Imperative.push a elements h = (Ok (), <[a := l ++ elements]> h).
Proof. intros H. unfold Imperative.push. run. by rewrite (get_run _ _ _ H). Qed.

Lemma sort_run compareFn a l h :
  h !! a = Some l → Imperative.sort compareFn a h = (Ok (), <[a := sort compareFn l]> h).
Proof. intros H. unfold Imperative.sort. run. by rewrite (get_run _ _ _ H). Qed.

Lemma filter_run f a l h :
  h !! a = Some l →
  ∃ r, h !! r = None ∧ Imperative.filter f a h = (Ok r, <[r := List.filter f l]> h).
Proof.
  intros H. unfold Imperative.filter. run. rewrite (get_run _ _ _ H).
  apply new_array_run.
Qed.

Lemma slice_run a count l h :
  h !! a = Some l →
  ∃ r, h !! r = None ∧ Imperative.slice a count h = (Ok r, <[r := take count l]> h).
Proof.
  intros H. unfold Imperative.slice. run. rewrite (get_run _ _ _ H).
  apply new_array_run.
Qed.

Lemma deduplicateProducts_run a l h :
  h !! a = Some l →
  ∃ r, h !! r = None ∧
       Imperative.deduplicateProducts Number_toString a h =
         (Ok r, <[r := deduplicateProducts Number_toString l]> h).
Proof.
  intros H. unfold Imperative.deduplicateProducts. run. rewrite (get_run _ _ _ H).
  apply new_array_run.
Qed.

Lemma splice_run a start deleteCount elements l h :
  h !! a = Some l →
  ∃ r, h !! r = None ∧ r ≠ a ∧
       Imperative.splice a start deleteCount elements h =
         (Ok r, <[r := take deleteCount (drop start l)]>
                  (<[a := take start l ++ elements ++ drop (start + deleteCount) l]> h)).
Proof.
  intros H. unfold Imperative.splice. run. rewrite (get_run _ _ _ H), set_run.
  destruct (new_array_run (take deleteCount (drop start l))
              (<[a := take start l ++ elements ++ drop (start + deleteCount) l]> h))
    as (r & Hr & ->).
  apply lookup_insert_None in Hr as [Hr Hne]. by exists r.
Qed.

Lemma splice_from_run a start l h :
  h !! a = Some l →
  ∃ r, h !! r = None ∧ r ≠ a ∧
       Imperative.splice_from a start h =
         (Ok r, <[r := take (length l - start) (drop start l)]>
                  (<[a := take start l ++ [] ++ drop (start + (length l - start)) l]> h)).
Proof.
  intros H. unfold Imperative.splice_from.
  rewrite (bind_run _ _ _ _ _ (get_run _ _ _ H)). by apply splice_run.
Qed.

Lemma aiVerdict_run cfg response products l note h :
  h !! products = Some l →
  Imperative.aiVerdict Number_toString toLocaleString cfg response products note h =
    (Ok (aiVerdict Number_toString toLocaleString cfg response l note), h).
Proof. intros H. unfold Imperative.aiVerdict. run. by rewrite (get_run _ _ _ H). Qed.

(** [rankProducts] on the heap returns what [rankProducts] on values
    returns; it leaves every array as it is, and the array it returns is
    the one it was given or a new one. *)
Lemma rankProducts_run cfg response query productCandidates candidates h r :
  h !! productCandidates = Some candidates →
  rankProducts cfg response query candidates = Ok r →
  ∃ ranked,
    Imperative.rankProducts cfg response query productCandidates h =
      (Ok {| Imperative.rankedProducts := ranked; Imperative.crsFailed := crsFailed r |},
       <[ranked := rankedProducts r]> h) ∧
    ((ranked = productCandidates ∧ rankedProducts r = candidates ∧ crsFailed r = true)
     ∨ (h !! ranked = None ∧ crsFailed r = false)).
Proof.
  intros H Hr.
  assert (∀ r', r = {| rankedProducts := candidates; crsFailed := true |} →
            (Ok {| Imperative.rankedProducts := productCandidates;
                   Imperative.crsFailed := true |}, h) = r' →
            ∃ ranked,
              r' =
                (Ok {| Imperative.rankedProducts := ranked;
                       Imperative.crsFailed := crsFailed r |},
                 <[ranked := rankedProducts r]> h) ∧
              ((ranked = productCandidates ∧ rankedProducts r = candidates ∧
                crsFailed r = true) ∨ (h !! ranked = None ∧ crsFailed r = false))) as Hfail.
  { intros r' -> <-. exists productCandidates. cbn [rankedProducts crsFailed].
    rewrite insert_id by done. split; [done|]. by left. }
  unfold Imperative.rankProducts, rankProducts in *. run.
  rewrite (get_run _ _ _ H).
  destruct (gemini_unconfigured cfg || (length candidates =? 0)%nat).
  { injection Hr as <-. by eapply Hfail. }
  unfold try_catch in Hr. unfold mbind, result_bind, mret, result_ret in Hr.
  destruct (read_jsonText response) as [parsed|e]; cbv beta iota in *; cycle 1.
  { injection Hr as <-. by eapply Hfail. }
  destruct (parse_aiScores parsed) as [aiScores|e]; cbv beta iota in *; cycle 1.
  { injection Hr as <-. by eapply Hfail. }
  destruct (map_throwing _ 0 candidates) as [ranked|e]; cbv beta iota in *; cycle 1.
  { injection Hr as <-. by eapply Hfail. }
  injection Hr as <-. cbn [rankedProducts crsFailed].
  destruct (new_array_run ranked h) as (a & Ha & ->).
  rewrite (sort_run by_CRS_desc a ranked) by apply lookup_insert_eq.
  exists a. rewrite insert_insert_eq. split; [done|]. by right.
Qed.

Ltac fresh_ne H := repeat (apply lookup_insert_None in H as [H ?]).
Ltac lookup :=
  repeat first [rewrite lookup_insert_eq | rewrite lookup_insert_ne by congruence];
  try done.

(** *** The merge *)

Lemma collect_direct_data name settled acc :
  collect_direct name settled acc = collect_direct name (Ok (data_of settled)) acc.
Proof. by destruct settled. Qed.

Lemma settle_run outcome h :
  (∀ value, outcome = Ok value → is_Some (h !! value)) →
  ∃ a h',
    Imperative.settle outcome h = (Ok a, h') ∧ h ⊆ h' ∧
    h' !! a = Some (data_of (read_outcome h outcome)) ∧
    (outcome = Ok a ∨ h !! a = None).
Proof.
  intros Halloc. destruct outcome as [value|message]; simpl.
  - destruct (Halloc value eq_refl) as [l Hl]. exists value, h.
    rewrite Hl. split; [done|]. split; [done|]. split; [done|]. by left.
  - destruct (new_array_run [] h) as (a & Ha & E). exists a, (<[a := []]> h).
    split; [done|]. split; [by apply insert_subseteq|].
    split; [by rewrite lookup_insert_eq|]. by right.
Qed.

Lemma read_outcome_weaken h h' outcome :
  h ⊆ h' → (∀ value, outcome = Ok value → is_Some (h !! value)) →
  read_outcome h' outcome = read_outcome h outcome.
Proof.
  intros Hsub Halloc. destruct outcome as [value|message]; [|done]. simpl.
  destruct (Halloc value eq_refl) as [l Hl].
  by rewrite Hl, (lookup_weaken _ _ _ _ Hl Hsub).
Qed.

Lemma allSettled_run amazon flipkart amazon_first h :
  (∀ value, amazon = Ok value → is_Some (h !! value)) →
  (∀ value, flipkart = Ok value → is_Some (h !! value)) →
  ∃ a f h',
    Imperative.allSettled amazon flipkart amazon_first h = (Ok (a, f), h') ∧ h ⊆ h' ∧
    h' !! a = Some (data_of (read_outcome h amazon)) ∧
    h' !! f = Some (data_of (read_outcome h flipkart)) ∧
    (amazon = Ok a ∨ h !! a = None) ∧
    (flipkart = Ok f ∨ h !! f = None).
Proof.
  intros Ha Hf. unfold Imperative.allSettled. destruct amazon_first; run.
  - destruct (settle_run amazon h Ha) as (a & h1 & -> & Hsub1 & Hda & Hna).
    assert (∀ value, flipkart = Ok value → is_Some (h1 !! value)) as Hf1.
    { intros v Hv. destruct (Hf v Hv) as [l Hl]. exists l. by eapply lookup_weaken. }
    destruct (settle_run flipkart h1 Hf1) as (f & h2 & -> & Hsub2 & Hdf & Hnf).
    exists a, f, h2. split; [done|]. split; [by etrans|].
    split; [by eapply lookup_weaken|].
    split; [by rewrite Hdf, (read_outcome_weaken h h1)|].
    split; [done|]. destruct Hnf as [?|Hnf]; [by left|right].
    by eapply lookup_weaken_None.
  - destruct (settle_run flipkart h Hf) as (f & h1 & -> & Hsub1 & Hdf & Hnf).
    assert (∀ value, amazon = Ok value → is_Some (h1 !! value)) as Ha1.
    { intros v Hv. destruct (Ha v Hv) as [l Hl]. exists l. by eapply lookup_weaken. }
    destruct (settle_run amazon h1 Ha1) as (a & h2 & -> & Hsub2 & Hda & Hna).
    exists a, f, h2. split; [done|]. split; [by etrans|].
    split; [by rewrite Hda, (read_outcome_weaken h h1)|].
    split; [by eapply lookup_weaken|].
    split; [|done]. destruct Hna as [?|Hna]; [by left|right].
    by eapply lookup_weaken_None.
Qed.

Lemma collect_direct_run items name data sources l d h :
  h !! items = Some l → h !! data = Some d →
  Imperative.collect_direct items name data sources h =
    (Ok (collect_direct name (Ok d) (l, sources)).2,
     <[items := (collect_direct name (Ok d) (l, sources)).1]> h).
Proof.
  intros Hl Hd. unfold Imperative.collect_direct, collect_direct. run.
  rewrite (get_run _ _ _ Hd). destruct (0 <? length d)%nat; cbn [fst snd]; cbv beta iota.
  - by rewrite (push_run _ _ _ _ Hl).
  - by rewrite insert_id.
Qed.

Lemma collect_serpapi_run cfg items settled sources l h :
  h !! items = Some l →
  (∀ value, settled = Ok value → is_Some (h !! value) ∧ value ≠ items) →
  ∃ h',
    Imperative.collect_serpapi cfg items settled sources h =
      (Ok (collect_serpapi cfg (read_outcome h settled) (l, sources)).2, h') ∧
    h' !! items = Some (collect_serpapi cfg (read_outcome h settled) (l, sources)).1 ∧
    (∀ r x, r ≠ items → h !! r = Some x → h' !! r = Some x).
Proof.
  intros Hl Halloc. destruct settled as [serpResults|message]; simpl; [|by exists h].
  destruct (Halloc serpResults eq_refl) as [[d Hd] Hne]. rewrite Hd. simpl.
  unfold Imperative.collect_serpapi. run.
  destruct (USE_AMAZON_FLIPKART_DIRECT cfg).
  - destruct (filter_run other_store _ _ _ Hd) as (r1 & Hr1 & ->).
    destruct (filter_run is_direct_link r1 (List.filter other_store d)
                (<[r1 := List.filter other_store d]> h)) as (r2 & Hr2 & ->); [lookup|].
    fresh_ne Hr2.
    rewrite (get_run r2 (List.filter is_direct_link (List.filter other_store d)))
      by lookup.
    rewrite (get_run r1 (List.filter other_store d)) by lookup.
    rewrite (push_run items l) by lookup.
    eexists. split; [done|]. split; [lookup|].
    intros r x Hr Hx. rewrite lookup_insert_ne by done.
    rewrite !lookup_insert_ne by congruence. done.
  - destruct (filter_run is_direct_link serpResults d h) as (r2 & Hr2 & ->); [done|].
    rewrite (get_run r2 (List.filter is_direct_link d)) by lookup.
    rewrite (get_run serpResults d) by lookup.
    rewrite (push_run items l) by lookup.
    eexists. split; [done|]. split; [lookup|].
    intros r x Hr Hx. rewrite lookup_insert_ne by done.
    rewrite !lookup_insert_ne by congruence. done.
Qed.

Lemma frame_except (h hA hB : Imperative.Heap) items :
  h !! items = None → h ⊆ hA →
  (∀ r x, r ≠ items → hA !! r = Some x → hB !! r = Some x) →
  h ⊆ hB.
Proof.
  intros Hnone Hsub Hframe. apply map_subseteq_spec. intros r x Hx.
  apply Hframe; [congruence|]. by eapply lookup_weaken.
Qed.

(** STEP 1 on the heap. *)
Lemma direct_scrapers_run amazon flipkart amazon_first items h :
  h !! items = Some [] →
  (∀ value, amazon = Ok value → is_Some (h !! value) ∧ value ≠ items) →
  (∀ value, flipkart = Ok value → is_Some (h !! value) ∧ value ≠ items) →
  let acc := collect_direct "Flipkart" (read_outcome h flipkart)
               (collect_direct "Amazon" (read_outcome h amazon) ([], [])) in
  ∃ h',
    (results ← Imperative.allSettled amazon flipkart amazon_first;
     sources ← Imperative.collect_direct items "Amazon" results.1 [];
     Imperative.collect_direct items "Flipkart" results.2 sources) h = (Ok acc.2, h') ∧
    h' !! items = Some acc.1 ∧
    (∀ r x, r ≠ items → h !! r = Some x → h' !! r = Some x).
Proof.
  intros Hitems Ha Hf acc. run.
  destruct (allSettled_run amazon flipkart amazon_first h)
    as (a & f & h2 & -> & Hsub & Hda & Hdf & Hna & Hnf).
  { intros v Hv. by apply Ha. }
  { intros v Hv. by apply Hf. }
  assert (a ≠ items) as Hai.
  { destruct Hna as [Hna|Hna]; [by apply Ha|congruence]. }
  assert (f ≠ items) as Hfi.
  { destruct Hnf as [Hnf|Hnf]; [by apply Hf|congruence]. }
  cbn [fst snd].
  rewrite (collect_direct_run items "Amazon" a [] []
             (data_of (read_outcome h amazon)) h2);
    [|by eapply lookup_weaken|done].
  rewrite <- collect_direct_data.
  set (acc1 := collect_direct "Amazon" (read_outcome h amazon) ([], [])) in *.
  rewrite (collect_direct_run items "Flipkart" f acc1.2 acc1.1
             (data_of (read_outcome h flipkart))); [|lookup|lookup].
  rewrite <- surjective_pairing, <- collect_direct_data. fold acc.
  eexists. split; [done|]. split; [lookup|].
  intros r x Hr Hx. rewrite !lookup_insert_ne by done. by eapply lookup_weaken.
Qed.

Lemma merge_run cfg adapters amazon_first query h :
  allocated h adapters query →
  ∃ items h',
    Imperative.merge Number_toString cfg adapters amazon_first query h =
      (Ok (items, (merge Number_toString cfg (heap_contents h adapters) query).2), h') ∧
    h ⊆ h' ∧ h !! items = None ∧
    h' !! items = Some (merge Number_toString cfg (heap_contents h adapters) query).1.
Proof.
  intros Halloc. unfold Imperative.merge, merge.
  destruct (new_array_run [] h) as (i0 & Hi0 & E0).
  rewrite (bind_run _ _ _ _ _ E0). clear E0.
  set (h1 := <[i0 := []]> h).
  assert (h ⊆ h1) as Hsub1 by by apply insert_subseteq.
  assert (∀ h', h ⊆ h' → ∀ outcome value,
            outcome ∈ [Imperative.scrapeAmazon adapters query;
                       Imperative.scrapeFlipkart adapters query;
                       Imperative.searchGoogleShopping adapters query] →
            outcome = Ok value → is_Some (h' !! value) ∧ value ≠ i0) as Hin.
  { intros h' Hsub outcome value Ho Hv. destruct (Halloc outcome value Ho Hv) as [l Hl].
    split; [|congruence]. exists l. by eapply lookup_weaken. }
  assert (∀ h', h ⊆ h' → ∀ outcome,
            outcome ∈ [Imperative.scrapeAmazon adapters query;
                       Imperative.scrapeFlipkart adapters query;
                       Imperative.searchGoogleShopping adapters query] →
            read_outcome h' outcome = read_outcome h outcome) as Hread.
  { intros h' Hsub outcome Ho. apply read_outcome_weaken; [done|].
    intros v Hv. by apply (Halloc outcome v Ho Hv). }
  cbn [scrapeAmazon scrapeFlipkart searchGoogleShopping heap_contents].
  set (acc1 := if USE_AMAZON_FLIPKART_DIRECT cfg
               then collect_direct "Flipkart"
                      (read_outcome h (Imperative.scrapeFlipkart adapters query))
                      (collect_direct "Amazon"
                         (read_outcome h (Imperative.scrapeAmazon adapters query))
                         ([], []))
               else ([], [])).
  (* STEP 1 *)
  assert (∃ h2,
            (if USE_AMAZON_FLIPKART_DIRECT cfg
             then
               results ← Imperative.allSettled (Imperative.scrapeAmazon adapters query)
                           (Imperative.scrapeFlipkart adapters query) amazon_first;
               sources ← Imperative.collect_direct i0 "Amazon" results.1 [];
               Imperative.collect_direct i0 "Flipkart" results.2 sources
             else mret []) h1 = (Ok acc1.2, h2) ∧
            h2 !! i0 = Some acc1.1 ∧ h ⊆ h2) as (h2 & Hrun2 & Hitems2 & Hsub2).
  { subst acc1. destruct (USE_AMAZON_FLIPKART_DIRECT cfg).
    - destruct (direct_scrapers_run (Imperative.scrapeAmazon adapters query)
                  (Imperative.scrapeFlipkart adapters query) amazon_first i0 h1)
        as (h2 & Hrun & Hitems & Hframe).
      + apply lookup_insert_eq.
      + intros v Hv. eapply (Hin h1 Hsub1); [|exact Hv]. repeat constructor.
      + intros v Hv. eapply (Hin h1 Hsub1); [|exact Hv]. repeat constructor.
      + rewrite !(Hread h1) in Hrun, Hitems by (done || (repeat constructor)).
        exists h2. split; [done|]. split; [done|]. by eapply frame_except.
    - exists h1. split; [done|]. split; [apply lookup_insert_eq|done]. }
  rewrite (bind_run _ _ _ _ _ Hrun2). clear Hrun2.
  set (acc2 := if USE_SERPAPI cfg
               then collect_serpapi cfg
                      (read_outcome h (Imperative.searchGoogleShopping adapters query))
                      acc1
               else acc1).
  (* STEP 2 *)
  assert (∃ h3,
            (if USE_SERPAPI cfg
             then Imperative.collect_serpapi cfg i0
                    (Imperative.searchGoogleShopping adapters query) acc1.2
             else mret acc1.2) h2 = (Ok acc2.2, h3) ∧
            h3 !! i0 = Some acc2.1 ∧ h ⊆ h3) as (h3 & Hrun3 & Hitems3 & Hsub3).
  { subst acc2. destruct (USE_SERPAPI cfg).
    - destruct (collect_serpapi_run cfg i0
                  (Imperative.searchGoogleShopping adapters query) acc1.2 acc1.1 h2)
        as (h3 & Hrun & Hitems & Hframe); [done| |].
      + intros v Hv. eapply (Hin h2 Hsub2); [|exact Hv]. repeat constructor.
      + rewrite <- surjective_pairing, (Hread h2) in Hrun, Hitems
          by (done || (repeat constructor)).
        exists h3. split; [done|]. split; [done|]. by eapply frame_except.
    - by exists h2. }
  rewrite (bind_run _ _ _ _ _ Hrun3). clear Hrun3.
  destruct (filter_run valid i0 acc2.1 h3 Hitems3) as (r1 & Hr1 & E1).
  rewrite (bind_run _ _ _ _ _ E1). clear E1.
  destruct (deduplicateProducts_run r1 (List.filter valid acc2.1)
              (<[r1 := List.filter valid acc2.1]> h3)) as (r2 & Hr2 & E2); [lookup|].
  rewrite (bind_run _ _ _ _ _ E2). clear E2.
  fresh_ne Hr2.
  destruct acc2 as [items2 sources2]. cbn [fst snd] in *.
  exists r2. eexists. split; [reflexivity|]. split; [|split].
  - apply insert_subseteq_r; [by eapply lookup_weaken_None|].
    apply insert_subseteq_r; [by eapply lookup_weaken_None|done].
  - by eapply lookup_weaken_None.
  - lookup.
Qed.

(** *** The ranking block and the fallback *)

Lemma try_catch_run {A} (body : Imperative.M A) handler h a h' :
  body h = (Ok a, h') → Imperative.try_catch body handler h = (Ok a, h').
Proof. intros H. unfold Imperative.try_catch. by rewrite H. Qed.

(** The two [splice]s, the sort and the [push], on lists. *)
Lemma splice_lists (sorted ranked : list Product) n :
  let c1 := take 0 sorted ++ ranked ++ drop (0 + n) sorted in
  let c2 := take n c1 ++ [] ++ drop (n + (length c1 - n)) c1 in
  let remaining := take (length c1 - n) (drop n c1) in
  c2 ++ sort by_price remaining = apply_ranking sorted ranked n.
Proof.
  intros c1 c2 remaining. unfold apply_ranking.
  assert (c1 = ranked ++ drop n sorted) as <- by done.
  subst c2 remaining.
  rewrite (drop_ge c1 (n + (length c1 - n))) by lia.
  rewrite (take_ge (drop n c1)) by (rewrite length_drop; lia).
  by rewrite !app_nil_r.
Qed.

Lemma rank_and_summarise_run cfg scoring verdict query items productsForAI
    rankedProducts0 sorted top first h :
  h !! items = Some sorted →
  h !! productsForAI = Some top →
  items ≠ productsForAI →
  let pure := rank_and_summarise Number_toString toLocaleString cfg scoring verdict
                query sorted top first in
  ∃ r h',
    Imperative.rank_and_summarise Number_toString toLocaleString cfg scoring verdict
      query items productsForAI rankedProducts0 h = (Ok r, h') ∧
    Imperative.r_items r = items ∧
    h' !! items = Some (r_items pure) ∧
    Imperative.r_summary r = r_summary pure ∧
    Imperative.r_rankingFailed r = r_rankingFailed pure ∧
    h' !! Imperative.r_rankedProducts r = Some (r_rankedProducts pure) ∧
    (∀ i x, i ≠ items → h !! i = Some x → h' !! i = Some x).
Proof.
  intros Hitems Htop Hne pure. subst pure.
  unfold Imperative.rank_and_summarise, rank_and_summarise.
  destruct (rankProducts_returns cfg scoring query top) as [rr Hrr]. rewrite Hrr.
  cbn [mbind result_bind mret result_ret].
  destruct (rankProducts_run cfg scoring query productsForAI top h rr Htop Hrr)
    as (ranked & Erun & Hcase).
  destruct Hcase as [(-> & Hsame & Hfailed)|[Hfresh Hok]].
  - (* the array given comes back, with the failure flag *)
    rewrite Hsame, Hfailed in *. rewrite insert_id in Erun by done.
    rewrite andb_false_r.
    destruct (slice_run productsForAI 5 top h Htop) as (r5 & Hr5 & E5).
    eexists _, _. split.
    { apply try_catch_run.
      rewrite (bind_run _ _ _ _ _ Erun). cbn [Imperative.rankedProducts Imperative.crsFailed].
      rewrite (bind_run _ _ _ _ _ (get_run _ _ _ Htop)).
      rewrite andb_false_r.
      rewrite (bind_run _ _ _ _ _ E5).
      rewrite (bind_run _ _ _ _ _
                 (aiVerdict_run cfg verdict r5 (take 5 top) _ _ (lookup_insert_eq _ _ _))).
      reflexivity. }
    cbn [Imperative.r_items Imperative.r_summary Imperative.r_rankingFailed
           Imperative.r_rankedProducts r_items r_summary r_rankingFailed r_rankedProducts].
    split; [done|]. split; [rewrite lookup_insert_ne by congruence; done|].
    split; [done|]. split; [done|].
    split; [rewrite lookup_insert_ne by congruence; done|].
    intros i x Hi Hx. rewrite lookup_insert_ne by congruence. done.
  - (* a new array of ranked products *)
    rewrite Hok in *. rewrite andb_true_r.
    set (R := rankedProducts rr) in *.
    set (h1 := <[ranked := R]> h) in *.
    assert (h1 !! ranked = Some R) as HR by apply lookup_insert_eq.
    assert (ranked ≠ items) as Hri by congruence.
    assert (ranked ≠ productsForAI) as Hrp by congruence.
    destruct (0 <? length R)%nat eqn:Hlen.
    + destruct (slice_run ranked 5 R h1 HR) as (r5 & Hr5 & E5).
      set (h2 := <[r5 := take 5 R]> h1) in *.
      unfold h1 in Hr5. fresh_ne Hr5.
      assert (h2 !! items = Some sorted) as Hitems2 by (unfold h2, h1; lookup).
      assert (h2 !! productsForAI = Some top) as Htop2 by (unfold h2, h1; lookup).
      assert (h2 !! ranked = Some R) as HR2 by (unfold h2, h1; lookup).
      assert (h2 !! r5 = Some (take 5 R)) as Hr5c by (unfold h2; lookup).
      destruct (splice_run items 0 (length top) R sorted h2 Hitems2)
        as (r6 & Hr6 & Hr6i & E6).
      set (c1 := take 0 sorted ++ R ++ drop (0 + length top) sorted) in *.
      set (h3 := <[r6 := take (length top) (drop 0 sorted)]> (<[items := c1]> h2)) in *.
      assert (h3 !! items = Some c1) as Hitems3 by (unfold h3; lookup).
      destruct (splice_from_run items (length top) c1 h3 Hitems3)
        as (r7 & Hr7 & Hr7i & E7).
      set (c2 := take (length top) c1 ++ [] ++
                 drop (length top + (length c1 - length top)) c1) in *.
      set (remaining := take (length c1 - length top) (drop (length top) c1)) in *.
      set (h4 := <[r7 := remaining]> (<[items := c2]> h3)) in *.
      unfold h2, h1 in Hr6. fresh_ne Hr6.
      unfold h3, h2, h1 in Hr7. fresh_ne Hr7.
      set (h5 := <[r7 := sort by_price remaining]> h4).
      assert (h5 !! items = Some c2) as Hitems5 by (unfold h5, h4; lookup).
      eexists _, _. split.
      { apply try_catch_run.
        rewrite (bind_run _ _ _ _ _ Erun).
        cbn [Imperative.rankedProducts Imperative.crsFailed].
        rewrite (bind_run _ _ _ _ _ (get_run _ _ _ HR)).
        rewrite Hlen. cbn [andb negb].
        rewrite (bind_run _ _ _ _ _ E5).
        rewrite (bind_run _ _ _ _ _ (aiVerdict_run cfg verdict r5 (take 5 R) _ h2 Hr5c)).
        assert ((top ← Imperative.get productsForAI;
                 ranked ← Imperative.get ranked;
                 _ ← Imperative.splice items 0 (length top) ranked;
                 remainingItems ← Imperative.splice_from items (length top);
                 _ ← Imperative.sort by_price remainingItems;
                 remaining ← Imperative.get remainingItems;
                 Imperative.push items remaining) h2 =
                (Ok (), <[items := c2 ++ sort by_price remaining]> h5)) as Hblock.
        { rewrite (bind_run _ _ _ _ _ (get_run _ _ _ Htop2)).
          rewrite (bind_run _ _ _ _ _ (get_run _ _ _ HR2)).
          rewrite (bind_run _ _ _ _ _ E6).
          rewrite (bind_run _ _ _ _ _ E7).
          rewrite (bind_run _ _ _ _ _
                     (sort_run by_price r7 remaining h4 (lookup_insert_eq _ _ _))).
          rewrite (bind_run _ _ _ _ _
                     (get_run r7 (sort by_price remaining) h5 (lookup_insert_eq _ _ _))).
          by rewrite (push_run items c2 _ h5 Hitems5). }
        rewrite (bind_run _ _ _ _ _ Hblock). reflexivity. }
      cbn [Imperative.r_items Imperative.r_summary Imperative.r_rankingFailed
             Imperative.r_rankedProducts r_items r_summary r_rankingFailed r_rankedProducts].
      split; [done|]. split.
      { rewrite lookup_insert_eq. f_equal. apply splice_lists. }
      split; [done|]. split; [done|]. split.
      { unfold h5, h4, h3, h2, h1. lookup. }
      intros i x Hi Hx. unfold h5, h4, h3, h2, h1.
      rewrite !lookup_insert_ne by congruence. done.
    + destruct (slice_run productsForAI 5 top h1) as (r5 & Hr5 & E5).
      { unfold h1. lookup. }
      unfold h1 in Hr5. fresh_ne Hr5.
      eexists _, _. split.
      { apply try_catch_run.
        rewrite (bind_run _ _ _ _ _ Erun).
        cbn [Imperative.rankedProducts Imperative.crsFailed].
        rewrite (bind_run _ _ _ _ _ (get_run _ _ _ HR)).
        rewrite Hlen. cbn [andb negb].
        rewrite (bind_run _ _ _ _ _ E5).
        rewrite (bind_run _ _ _ _ _
                   (aiVerdict_run cfg verdict r5 (take 5 top) _ _ (lookup_insert_eq _ _ _))).
        reflexivity. }
      cbn [Imperative.r_items Imperative.r_summary Imperative.r_rankingFailed
             Imperative.r_rankedProducts r_items r_summary r_rankingFailed r_rankedProducts].
      split; [done|]. split; [unfold h1; lookup|].
      split; [done|]. split; [done|]. split; [unfold h1; lookup|].
      intros i x Hi Hx. unfold h1. rewrite !lookup_insert_ne by congruence. done.
Qed.


Lemma fallback_run query items_ref summary_text ranked failed l rankedList h :
  h !! items_ref = Some l →
  let pure := fallback Number_toString query
                {| r_items := l; r_summary := summary_text;
                   r_rankedProducts := rankedList; r_rankingFailed := failed |} in
  ∃ r h',
    Imperative.fallback Number_toString query
      {| Imperative.r_items := items_ref; Imperative.r_summary := summary_text;
         Imperative.r_rankedProducts := ranked; Imperative.r_rankingFailed := failed |} h
      = (Ok r, h') ∧
    h ⊆ h' ∧
    h' !! Imperative.r_items r = Some (r_items pure) ∧
    Imperative.r_summary r = r_summary pure ∧
    Imperative.r_rankedProducts r = ranked ∧
    r_rankedProducts pure = rankedList ∧
    Imperative.r_rankingFailed r = r_rankingFailed pure.
Proof.
  intros Hl pure. subst pure. unfold Imperative.fallback, fallback.
  cbn [Imperative.r_items Imperative.r_summary Imperative.r_rankingFailed
         Imperative.r_rankedProducts r_items r_summary r_rankingFailed r_rankedProducts].
  destruct failed; [|by eexists _, _].
  rewrite (bind_run _ _ _ _ _ (get_run _ _ _ Hl)).
  unfold Imperative.simpleAccessoryFilter, simpleAccessoryFilter.
  destruct (negb (isPrimaryQuery query)).
  - rewrite (bind_run (mret items_ref) _ h items_ref h eq_refl).
    rewrite (bind_run _ _ _ _ _ (get_run _ _ _ Hl)).
    rewrite Nat.ltb_irrefl. by eexists _, _.
  - destruct (filter_run keeps items_ref l h Hl) as (r & Hr & E).
    rewrite (bind_run _ _ _ _ _ E).
    rewrite (bind_run _ _ _ _ _ (get_run r _ _ (lookup_insert_eq _ _ _))).
    destruct (length (List.filter keeps l) <? length l)%nat.
    + rewrite (bind_run _ _ _ _ _ (sort_run by_price r _ _ (lookup_insert_eq _ _ _))).
      rewrite insert_insert_eq.
      rewrite (bind_run _ _ _ _ _ (get_run r _ _ (lookup_insert_eq _ _ _))).
      eexists _, _. split; [reflexivity|].
      cbn [Imperative.r_items Imperative.r_summary Imperative.r_rankingFailed
             Imperative.r_rankedProducts r_items r_summary r_rankingFailed
             r_rankedProducts].
      split; [by apply insert_subseteq|]. split; [apply lookup_insert_eq|done].
    + eexists _, _. split; [reflexivity|].
      cbn [Imperative.r_items Imperative.r_summary Imperative.r_rankingFailed
             Imperative.r_rankedProducts r_items r_summary r_rankingFailed
             r_rankedProducts].
      split; [by apply insert_subseteq|]. split; [apply lookup_insert_eq|done].
Qed.

Lemma rank_merged_run cfg scoring verdict clock query merged_ref reports merged h pres :
  h !! merged_ref = Some merged →
  rank_merged Number_toString toLocaleString cfg scoring verdict clock query merged reports
    = Ok pres →
  ∃ res h',
    Imperative.rank_merged Number_toString toLocaleString cfg scoring verdict clock query
      merged_ref reports h = (Ok res, h') ∧
    (∀ i x, i ≠ merged_ref → h !! i = Some x → h' !! i = Some x) ∧
    h' !! Imperative.items res = Some (items pres) ∧
    Imperative.summary res = summary pres ∧
    Imperative.metadata res = metadata pres.
Proof.
  intros Hm Hpure. unfold Imperative.rank_merged, rank_merged in *.
  destruct (filter_run is_direct_link merged_ref merged h Hm) as (rd & Hrd & Ed).
  rewrite (bind_run _ _ _ _ _ Ed).
  set (h1 := <[rd := List.filter is_direct_link merged]> h).
  assert (rd ≠ merged_ref) as Hne1 by congruence.
  assert (h1 !! merged_ref = Some merged) as Hm1 by (unfold h1; lookup).
  rewrite (bind_run _ _ _ _ _ (get_run rd _ h1 (lookup_insert_eq _ _ _))).
  rewrite (bind_run _ _ _ _ _ (get_run _ _ _ Hm1)).
  cbv zeta in *.
  destruct (length merged =? 0)%nat.
  { destruct (new_array_run [] h1) as (re & Hre & Ee).
    rewrite (bind_run _ _ _ _ _ Ee). injection Hpure as <-.
    unfold h1 in Hre. fresh_ne Hre.
    eexists _, _. split; [reflexivity|].
    cbn [Imperative.items Imperative.summary Imperative.metadata items summary metadata].
    split; [|split; [apply lookup_insert_eq|done]].
    intros i x Hi Hx. unfold h1. rewrite !lookup_insert_ne by congruence. done. }
  rewrite (bind_run _ _ _ _ _ (sort_run by_price _ _ _ Hm1)).
  set (sorted := sort by_price merged) in *.
  set (h2 := <[merged_ref := sorted]> h1).
  rewrite (bind_run _ _ _ _ _ (get_run merged_ref sorted h2 (lookup_insert_eq _ _ _))).
  destruct (slice_run merged_ref (Nat.min 20 (length sorted)) sorted h2)
    as (rp & Hrp & Ep); [apply lookup_insert_eq|].
  rewrite (bind_run _ _ _ _ _ Ep).
  fold (top_slice sorted) in *.
  set (h3 := <[rp := top_slice sorted]> h2).
  rewrite (bind_run _ _ _ _ _ (get_run rp _ h3 (lookup_insert_eq _ _ _))).
  unfold h2, h1 in Hrp. fresh_ne Hrp.
  destruct (top_slice sorted) as [|first rest] eqn:Htop; [done|].
  destruct (new_array_run [] h3) as (r0 & Hr0 & E0).
  rewrite (bind_run _ _ _ _ _ E0).
  set (h4 := <[r0 := []]> h3).
  unfold h3, h2, h1 in Hr0. fresh_ne Hr0.
  destruct (rank_and_summarise_run cfg scoring verdict query merged_ref rp r0
              sorted (first :: rest) first h4)
    as (r & h5 & Er & Hri & Hitems5 & Hsum & Hfailed & Hranked5 & Hframe5).
  { unfold h4, h3, h2. lookup. }
  { unfold h4, h3. lookup. }
  { congruence. }
  rewrite (bind_run _ _ _ _ _ Er).
  set (pure_r := rank_and_summarise Number_toString toLocaleString cfg scoring verdict
                   query sorted (first :: rest) first) in *.
  destruct r as [ri rs rr rf].
  cbn [Imperative.r_items Imperative.r_summary Imperative.r_rankingFailed
         Imperative.r_rankedProducts] in *.
  subst ri rs rf.
  destruct (fallback_run query merged_ref (r_summary pure_r) rr (r_rankingFailed pure_r)
              (r_items pure_r) (r_rankedProducts pure_r) h5 Hitems5)
    as (r' & h6 & Ef & Hsub6 & Hitems6 & Hsum6 & Hrr6 & Hrl6 & Hfailed6).
  rewrite (bind_run _ _ _ _ _ Ef).
  assert ({| r_items := r_items pure_r; r_summary := r_summary pure_r;
             r_rankedProducts := r_rankedProducts pure_r;
             r_rankingFailed := r_rankingFailed pure_r |} = pure_r) as Hrecord
    by by destruct pure_r.
  rewrite Hrecord in *.
  rewrite (bind_run _ _ _ _ _ (get_run _ _ _ Hitems6)).
  rewrite (bind_run _ _ _ _ _
             (get_run (Imperative.r_rankedProducts r') (r_rankedProducts pure_r) h6
                ltac:(rewrite Hrr6; by eapply lookup_weaken))).
  injection Hpure as <-.
  eexists _, _. split; [reflexivity|].
  cbn [Imperative.items Imperative.summary Imperative.metadata items summary metadata].
  split; [|split; [done|split; [done|]]].
  - intros i x Hi Hx. eapply lookup_weaken; [|exact Hsub6]. apply Hframe5; [done|].
    unfold h4, h3, h2, h1. rewrite !lookup_insert_ne by congruence. done.
  - by rewrite Hfailed6, Hrl6.
Qed.

(** [getProductResults] on the heap returns what [getProductResults] on
    values returns for the arrays the adapters hold, and it leaves every
    array that was there as it was. *)
Lemma getProductResults_run cfg adapters scoring verdict amazon_first clock query h pres :
  allocated h adapters query →
  getProductResults Number_toString toLocaleString cfg (heap_contents h adapters)
    scoring verdict clock query = Ok pres →
  ∃ res h',
    Imperative.getProductResults Number_toString toLocaleString cfg adapters scoring
      verdict amazon_first clock query h = (Ok res, h') ∧
    h ⊆ h' ∧
    h' !! Imperative.items res = Some (items pres) ∧
    Imperative.summary res = summary pres ∧
    Imperative.metadata res = metadata pres.
Proof.
  intros Halloc Hpure. unfold Imperative.getProductResults, getProductResults in *.
  destruct (merge_run cfg adapters amazon_first query h Halloc)
    as (merged_ref & h1 & Em & Hsub1 & Hfresh & Hm1).
  rewrite (bind_run _ _ _ _ _ Em). cbn [fst snd].
  destruct (merge Number_toString cfg (heap_contents h adapters) query)
    as [merged reports]. cbn [fst snd] in *.
  destruct (rank_merged_run cfg scoring verdict clock query merged_ref reports merged
              h1 pres Hm1 Hpure) as (res & h2 & Er & Hframe & Hitems & Hsum & Hmeta).
  exists res, h2. split; [done|]. split; [|done].
  by eapply frame_except.
Qed.

(** *** Two runs *)

(** The orchestrator asks each adapter about the query only. *)
Lemma getProductResults_adapters cfg adapters adapters' scoring verdict clock query :
  scrapeAmazon adapters query = scrapeAmazon adapters' query →
  scrapeFlipkart adapters query = scrapeFlipkart adapters' query →
  searchGoogleShopping adapters query = searchGoogleShopping adapters' query →
  getProductResults Number_toString toLocaleString cfg adapters scoring verdict clock query =
  getProductResults Number_toString toLocaleString cfg adapters' scoring verdict clock query.
Proof.
  intros Ha Hf Hs. unfold getProductResults, merge. by rewrite Ha, Hf, Hs.
Qed.

(** The clock reaches [metadata.fetchTime] and nothing else. *)
Lemma getProductResults_clock cfg adapters scoring verdict query clock1 clock2 res1 res2 :
  getProductResults Number_toString toLocaleString cfg adapters scoring verdict clock1 query
    = Ok res1 →
  getProductResults Number_toString toLocaleString cfg adapters scoring verdict clock2 query
    = Ok res2 →
  items res1 = items res2 ∧ summary res1 = summary res2.
Proof.
  unfold getProductResults.
  destruct (merge Number_toString cfg adapters query) as [merged reports].
  unfold rank_merged. destruct (length merged =? 0)%nat.
  - by intros [= <-] [= <-].
  - destruct (top_slice (sort by_price merged)); [done|]. by intros [= <-] [= <-].
Qed.

(** C9: two runs of [getProductResults] on the same query, one after the
    other on the same heap, with the same environment, the same answers
    of the two providers and adapters whose arrays hold the same products
    (the same arrays, as a mock gives them, or others): both runs return,
    the arrays they return hold the same products in the same order, and
    the summaries are the same; whichever scraper settles first in each
    run, and whatever the clock reads.  No array that existed before a run
    is changed by it, so the second run reads what the first read, and the
    result of the first is still there after the second. *)
Theorem two_runs_agree cfg adapters1 adapters2 scoring verdict query
    amazon_first1 amazon_first2 clock1 clock2 h :
  allocated h adapters1 query →
  allocated h adapters2 query →
  same_outputs h adapters1 adapters2 query →
  ∃ res1 h1 res2 h2 products,
    Imperative.getProductResults Number_toString toLocaleString cfg adapters1 scoring
      verdict amazon_first1 clock1 query h = (Ok res1, h1) ∧
    Imperative.getProductResults Number_toString toLocaleString cfg adapters2 scoring
      verdict amazon_first2 clock2 query h1 = (Ok res2, h2) ∧
    h1 !! Imperative.items res1 = Some products ∧
    h2 !! Imperative.items res2 = Some products ∧
    Imperative.summary res1 = Imperative.summary res2 ∧
    h ⊆ h1 ∧ h1 ⊆ h2.
Proof.
  intros Halloc1 Halloc2 (Ha & Hf & Hs).
  destruct (getProductResults_returns Number_toString toLocaleString cfg
              (heap_contents h adapters1) scoring verdict clock1 query) as [pres1 Hp1].
  destruct (getProductResults_run cfg adapters1 scoring verdict amazon_first1 clock1
              query h pres1 Halloc1 Hp1) as (res1 & h1 & E1 & Hsub1 & Hitems1 & Hsum1 & _).
  assert (allocated h1 adapters2 query) as Halloc2'.
  { intros outcome value Ho Hv. destruct (Halloc2 outcome value Ho Hv) as [l Hl].
    exists l. by eapply lookup_weaken. }
  destruct (getProductResults_returns Number_toString toLocaleString cfg
              (heap_contents h1 adapters2) scoring verdict clock2 query) as [pres2 Hp2].
  destruct (getProductResults_run cfg adapters2 scoring verdict amazon_first2 clock2
              query h1 pres2 Halloc2' Hp2) as (res2 & h2 & E2 & Hsub2 & Hitems2 & Hsum2 & _).
  assert (∀ outcome,
            outcome ∈ [Imperative.scrapeAmazon adapters2 query;
                       Imperative.scrapeFlipkart adapters2 query;
                       Imperative.searchGoogleShopping adapters2 query] →
            read_outcome h1 outcome = read_outcome h outcome) as Hread.
  { intros outcome Ho. apply read_outcome_weaken; [done|].
    intros v Hv. by apply (Halloc2 outcome v Ho Hv). }
  rewrite (getProductResults_adapters cfg (heap_contents h1 adapters2)
             (heap_contents h adapters1)) in Hp2; cycle 1.
  { cbn. rewrite Hread by repeat constructor. done. }
  { cbn. rewrite Hread by repeat constructor. done. }
  { cbn. rewrite Hread by repeat constructor. done. }
  destruct (getProductResults_clock _ _ _ _ _ _ _ _ _ Hp1 Hp2) as [Hitems Hsum].
  exists res1, h1, res2, h2, (items pres1).
  split; [done|]. split; [done|]. split; [done|].
  split; [by rewrite Hitems|]. split; [congruence|done].
Qed.

End ImperativeFacts.

Lemma sample_mock_allocated amazon :
  amazon = 1%positive ∨ amazon = 3%positive →
  allocated sample_heap (sample_mock amazon) "wireless mouse".
Proof.
  intros Hamazon outcome value Ho Hv. cbn in Ho.
  apply elem_of_cons in Ho as [->|Ho].
  { injection Hv as <-. by destruct Hamazon as [->| ->]. }
  apply elem_of_cons in Ho as [->|Ho]; [done|].
  apply elem_of_cons in Ho as [->|Ho]; [by injection Hv as <-|].
  by apply elem_of_nil in Ho.
Qed.

Lemma two_runs_agree_witness :
  ∃ res1 h1 res2 h2 products,
    Imperative.getProductResults Sample.show Sample.show Sample.configured
      (sample_mock 1) (HttpError 503 "Service Unavailable") Sample.no_verdict
      true Sample.clock "wireless mouse" sample_heap = (Ok res1, h1) ∧
    Imperative.getProductResults Sample.show Sample.show Sample.configured
      (sample_mock 3) (HttpError 503 "Service Unavailable") Sample.no_verdict
      false {| startTime := 5000; endTime := 5400 |} "wireless mouse" h1 = (Ok res2, h2) ∧
    h1 !! Imperative.items res1 = Some products ∧
    h2 !! Imperative.items res2 = Some products ∧
    Imperative.summary res1 = Imperative.summary res2 ∧
    sample_heap ⊆ h1 ∧ h1 ⊆ h2.
Proof.
  apply (two_runs_agree Sample.show Sample.show Sample.configured
           (sample_mock 1) (sample_mock 3)).
  - apply sample_mock_allocated. by left.
  - apply sample_mock_allocated. by right.
  - by repeat split.
Defined.
